(** * Oriented-rectangle overlap detection (overlapcheck.py)

    A shallow embedding of [create_rectangle], [overlap], [is_overlap]
    (with its inner [transform_and_check]), the scenario generator [caller],
    [plot_all_rectangles] and the [__main__] block, followed by the
    properties of the specification stated over them.

    Numbers.  Python integers are [Z].  Python floats are binary64 numbers,
    and the functions that compute with them are embedded twice.

    - In exact arithmetic, over the real numbers [R] with the real cosine
      and sine.  This is the geometry the specification describes.  The
      scenario generator, the report and the properties that rest on the
      comparisons alone are stated in this reading.

    - In binary64 (module [B64]), over the primitive binary64 numbers,
      every operation rounding as the machine does, with the values of
      [math.cos] and [math.sin] as parameters.  This is what the program
      computes.  The properties that depend on the computed coordinates
      are stated in this reading. *)

From Stdlib Require Import Floats.
From Stdlib Require Import String DecimalString.
From Stdlib Require Import Reals Lra Psatz Bool ZArith Lia List Permutation.
Import ListNotations.

Set Warnings "-inexact-float".

Open Scope R_scope.

(** ** Comparisons returning booleans *)

(** [a <= b] on numbers, as a Python boolean. *)
Definition Rleb (a b : R) : bool :=
  if Rle_dec a b then true else false.

(** ** RectangleModel: [create_rectangle] *)

Definition point : Type := (R * R)%type.

(** A rectangle as the seven scalars every function of the source takes. *)
Record Rect : Type := mkRect {
  r_cx : R; r_cy : R; r_t : R;
  r_lf : R; r_wl : R; r_lr : R; r_wr : R
}.

(** The local [corners] list of [create_rectangle]. *)
Definition corners (lf wl lr wr : R) : list point :=
  [ (- lr, - wr); (lf, - wr); (lf, wl); (- lr, wl) ].

(** [create_rectangle]: the ring handed to [Polygon], i.e. the list
    [transformed_corners]. *)
Definition create_rectangle (cx cy angle lf wl lr wr : R) : list point :=
  let cos_a := cos angle in
  let sin_a := sin angle in
  map (fun '(x, y) => (cx + cos_a * x - sin_a * y, cy + sin_a * x + cos_a * y))
      (corners lf wl lr wr).

(** ** HeuristicOverlapTester: [is_overlap] *)

(** The two coordinate lists at the head of [transform_and_check]. *)
Definition corners_y (wl1 wr1 : R) : list R := [ wl1; - wr1; - wr1; wl1 ].
Definition corners_x (lf1 lr1 : R) : list R := [ - lr1; - lr1; lf1; lf1 ].

(** The body of the [for i in range(4)] loop for one corner [(x, y)]: the
    value of the condition of its [if]. *)
Definition corner_check (cx1 cy1 ct1 st1 cx2 cy2 ct2 st2
                         min_x max_x min_y max_y x y : R) : bool :=
  let x_rot := (x * ct1) - (y * st1) in
  let y_rot := (x * st1) + (y * ct1) in
  let x_global := x_rot + cx1 in
  let y_global := y_rot + cy1 in
  let tx := x_global - cx2 in
  let ty := y_global - cy2 in
  let lx := (tx * ct2) + (ty * st2) in
  let ly := (- tx * st2) + (ty * ct2) in
  Rleb min_x lx && Rleb lx max_x && Rleb min_y ly && Rleb ly max_y.

(** The loop itself over the remaining indices: [return True] at the first
    corner that passes, [return False] when the indices are exhausted. *)
Fixpoint corner_loop (check : R -> R -> bool) (xs ys : list R)
                     (indices : list nat) : bool :=
  match indices with
  | [] => false
  | i :: rest =>
      if check (nth i xs 0) (nth i ys 0) then true
      else corner_loop check xs ys rest
  end.

Definition transform_and_check
    (cx1 cy1 t1 lf1 wl1 lr1 wr1 cx2 cy2 t2 lf2 wl2 lr2 wr2 : R) : bool :=
  let ys := corners_y wl1 wr1 in
  let xs := corners_x lf1 lr1 in
  let ct1 := cos t1 in
  let st1 := sin t1 in
  let ct2 := cos t2 in
  let st2 := sin t2 in
  let min_y := - wr2 in
  let max_y := wl2 in
  let min_x := - lr2 in
  let max_x := lf2 in
  corner_loop
    (corner_check cx1 cy1 ct1 st1 cx2 cy2 ct2 st2 min_x max_x min_y max_y)
    xs ys (seq 0 4).

Definition is_overlap
    (cx1 cy1 t1 lf1 wl1 lr1 wr1 cx2 cy2 t2 lf2 wl2 lr2 wr2 : R) : bool :=
  transform_and_check cx1 cy1 t1 lf1 wl1 lr1 wr1 cx2 cy2 t2 lf2 wl2 lr2 wr2
  || transform_and_check cx2 cy2 t2 lf2 wl2 lr2 wr2 cx1 cy1 t1 lf1 wl1 lr1 wr1.

(** The same two functions on [Rect] values. *)
Definition tac (A B : Rect) : bool :=
  transform_and_check
    (r_cx A) (r_cy A) (r_t A) (r_lf A) (r_wl A) (r_lr A) (r_wr A)
    (r_cx B) (r_cy B) (r_t B) (r_lf B) (r_wl B) (r_lr B) (r_wr B).

Definition heuristic (A B : Rect) : bool :=
  is_overlap
    (r_cx A) (r_cy A) (r_t A) (r_lf A) (r_wl A) (r_lr A) (r_wr A)
    (r_cx B) (r_cy B) (r_t B) (r_lf B) (r_wl B) (r_lr B) (r_wr B).

(** ** Geometric vocabulary used by the statements *)

(** A local point of a rectangle with centre [(cx, cy)] and heading [t], in
    the global frame, and a global point in that rectangle's local frame. *)
Definition to_global (cx cy t : R) (p : point) : point :=
  (fst p * cos t - snd p * sin t + cx, fst p * sin t + snd p * cos t + cy).

Definition to_local (cx cy t : R) (g : point) : point :=
  ((fst g - cx) * cos t + (snd g - cy) * sin t,
   - (fst g - cx) * sin t + (snd g - cy) * cos t).

(** The local box [[-lr, lf] x [-wr, wl]], closed. *)
Definition in_box (lf wl lr wr : R) (p : point) : Prop :=
  - lr <= fst p <= lf /\ - wr <= snd p <= wl.

(** The local corners in the order [transform_and_check] visits them. *)
Definition visited_corners (lf wl lr wr : R) : list point :=
  combine (corners_x lf lr) (corners_y wl wr).

(** A corner of [A] lies in the local box of [B]. *)
Definition corner_inside (A B : Rect) : Prop :=
  exists c, In c (visited_corners (r_lf A) (r_wl A) (r_lr A) (r_wr A)) /\
    in_box (r_lf B) (r_wl B) (r_lr B) (r_wr B)
      (to_local (r_cx B) (r_cy B) (r_t B)
         (to_global (r_cx A) (r_cy A) (r_t A) c)).

(** ** ExactOverlapTester: [overlap]

    [Polygon.intersects] belongs to the shapely library.  It is modelled by
    its meaning: two polygons intersect when their closed regions share a
    point.  The ring built by [create_rectangle] is always a rectangle, so
    its closed region is the convex hull of the four vertices. *)

Fixpoint weighted_sum (ws : list R) (P : list point) : point :=
  match ws, P with
  | w :: ws', p :: P' =>
      let s := weighted_sum ws' P' in (w * fst p + fst s, w * snd p + snd s)
  | _, _ => (0, 0)
  end.

Definition total (ws : list R) : R := fold_right Rplus 0 ws.

(** [g] belongs to the closed region spanned by the vertices [P]. *)
Definition covers (P : list point) (g : point) : Prop :=
  exists ws, length ws = length P /\ Forall (fun w => 0 <= w) ws /\
             total ws = 1 /\ weighted_sum ws P = g.

(** [g] belongs to the open region spanned by the vertices [P]. *)
Definition interior (P : list point) (g : point) : Prop :=
  exists ws, length ws = length P /\ Forall (fun w => 0 < w) ws /\
             total ws = 1 /\ weighted_sum ws P = g.

Definition intersects (P Q : list point) : Prop :=
  exists g, covers P g /\ covers Q g.

Definition overlap
    (cx1 cy1 angle1 lf1 wl1 lr1 wr1 cx2 cy2 angle2 lf2 wl2 lr2 wr2 : R)
  : Prop :=
  let rect1 := create_rectangle cx1 cy1 angle1 lf1 wl1 lr1 wr1 in
  let rect2 := create_rectangle cx2 cy2 angle2 lf2 wl2 lr2 wr2 in
  intersects rect1 rect2.

Definition polygon (A : Rect) : list point :=
  create_rectangle
    (r_cx A) (r_cy A) (r_t A) (r_lf A) (r_wl A) (r_lr A) (r_wr A).

Definition exact (A B : Rect) : Prop :=
  overlap
    (r_cx A) (r_cy A) (r_t A) (r_lf A) (r_wl A) (r_lr A) (r_wr A)
    (r_cx B) (r_cy B) (r_t B) (r_lf B) (r_wl B) (r_lr B) (r_wr B).

(** The two rectangles share a point of their open regions. *)
Definition share_interior (A B : Rect) : Prop :=
  exists g, interior (polygon A) g /\ interior (polygon B) g.

(** [B'] is [B] with every extent strictly larger, centre and heading kept. *)
Definition grown (B B' : Rect) : Prop :=
  r_cx B' = r_cx B /\ r_cy B' = r_cy B /\ r_t B' = r_t B /\
  r_lf B < r_lf B' /\ r_wl B < r_wl B' /\ r_lr B < r_lr B' /\ r_wr B < r_wr B'.

(** ** ScenarioGenerator: [caller] *)

(** Indexing a Python list raises outside its range; a failed lookup is
    [None], threaded through the generator. *)
Definition bind {A B : Type} (m : option A) (f : A -> option B) : option B :=
  match m with
  | Some a => f a
  | None => None
  end.

Notation "x <- m ;; k" := (bind m (fun x => k))
  (at level 61, m at next level, right associativity).

(** [numpy.deg2rad]. *)
Definition deg2rad (d : R) : R := d * PI / 180.

(** [range(start, stop, step)] for a positive step. *)
Definition range (start stop step : Z) : list Z :=
  map (fun k => (start + step * Z.of_nat k)%Z)
      (seq 0 (Z.to_nat ((stop - start + step - 1) / step))).

(** [i in [...]]. *)
Definition among (i : nat) (l : list nat) : bool := existsb (Nat.eqb i) l.

Definition ry : Z := 4.
Definition lf1 : R := 1.0.
Definition wl1 : R := 1.0.
Definition lr1 : R := 1.0.
Definition wr1 : R := 2.0.
Definition lsy : list Z := [0; 6; 10; 14; 22; 34; 44; 50; 56; 62; 70]%Z.
Definition lsx : list Z := [1; 1; 1; 1; 1; 1; 1; 1; 3; 4; 5]%Z.
Definition lfs2 : list R := [0; 0; 0; 0; 0; 0; -0.5; -0.8; 2.0; 3.0; 4.0].
Definition wls2 : list R :=
  [-0.5; -0.5; -0.5; -0.5; 3.0; 4.0; -0.5; -0.5; 0; 0; 0].
Definition lrs2 : list R := [0; 0; -0.5; -0.7; 0; 0; -0.5; -0.8; 2.0; 3.0; 4.0].
Definition wrs2 : list R :=
  [0; 0; -1.5; -1.7; 2.0; 3.0; 0; 0; -1.0; -1.0; -1.0].

(** One appended test case.  Every [append] of [caller] builds the same
    fourteen-element list; only the headings [o1], [o2] and the centre of
    the second rectangle differ, given here as functions [cx2] of [lsx[i]]
    and [cy2] of [lsy[i]]. *)
Definition test_case (rx : Z) (o1 o2 : R) (cx2 cy2 : Z -> R) (i : nat)
  : option (list R) :=
  sy <- nth_error lsy i ;;
  sx <- nth_error lsx i ;;
  dlf <- nth_error lfs2 i ;;
  dwl <- nth_error wls2 i ;;
  dlr <- nth_error lrs2 i ;;
  dwr <- nth_error wrs2 i ;;
  Some [ IZR rx; IZR (ry + sy); o1; lf1; wl1; lr1; wr1;
         cx2 sx; cy2 sy; o2; lf1 + dlf; wl1 + dwl; lr1 + dlr; wr1 + dwr ].

(** [for i in ...: test_cases.append(mk i)]. *)
Fixpoint append_cases (mk : nat -> option (list R)) (indices : list nat)
                      (test_cases : list (list R)) : option (list (list R)) :=
  match indices with
  | [] => Some test_cases
  | i :: rest =>
      c <- mk i ;;
      append_cases mk rest (test_cases ++ [c])
  end.

(** The four blocks before the heading sweep ([o1 = o2 = 0.0]). *)
Definition plain_case (rx fac ad : Z) (i : nat) : option (list R) :=
  test_case rx 0.0 0.0
            (fun sx => IZR (rx + sx)) (fun sy => IZR (ry + fac * ad + sy)) i.

Definition below_case (rx fac ad : Z) (i : nat) : option (list R) :=
  test_case rx 0.0 0.0
            (fun sx =>
               let x1 := (rx + sx)%Z in let x2 := rx in IZR (2 * x2 - x1))
            (fun sy => IZR (ry + fac * ad + sy)) i.

(** The body of the innermost loop of the sweep: the chain of [if]/[elif],
    in the order of the source.  [o1] and [o2] are in degrees, [o2] already
    increased by [o1]. *)
Definition sweep_case (rx fac ad o1 o2 : Z) (i : nat) : option (list R) :=
  let h1 := deg2rad (IZR o1) in
  let h2 := deg2rad (IZR o2) in
  let y := fun sy => IZR (ry + fac * ad + sy) in
  let x := fun sx => IZR (rx + sx) in
  let left_by (d : R) := test_case rx h1 h2 (fun sx => IZR (rx + sx) - d) y i in
  let left_one := test_case rx h1 h2 (fun sx => IZR (rx + sx - 1)) y i in
  let down_half :=
    test_case rx h1 h2 x (fun sy => IZR (ry + fac * ad + sy) - 0.5) i in
  let at_ (d off : Z) := ((o1 =? d) && (o2 =? o1 + off))%Z in
  if at_ (-180)%Z 30%Z && (i =? 10)%nat then left_one
  else if at_ (-135)%Z 0%Z && among i [8; 9; 10]%nat then left_by 2.5
  else if at_ (-135)%Z 10%Z && among i [8; 9; 10]%nat then left_by 2.7
  else if at_ (-135)%Z 20%Z && among i [8; 9; 10]%nat then left_by 2.7
  else if at_ (-135)%Z 30%Z && among i [8; 9; 10]%nat then left_by 2.7
  else if at_ (-90)%Z 0%Z && among i [8; 9]%nat then left_by 2.7
  else if at_ (-90)%Z 0%Z && (i =? 10)%nat then left_by 3.5
  else if at_ (-90)%Z 0%Z && (i <? 6)%nat then down_half
  else if at_ (-90)%Z 10%Z && among i [8; 9; 10]%nat then left_by 3.0
  else if at_ (-90)%Z 20%Z && among i [8; 9; 10]%nat then left_by 3.0
  else if at_ (-90)%Z 30%Z && among i [8; 9; 10]%nat then left_by 3.0
  else if at_ (-45)%Z 0%Z && among i [8; 9; 10]%nat then left_by 2.7
  else if at_ (-45)%Z 10%Z && among i [8; 9; 10]%nat then left_by 2.7
  else if at_ (-45)%Z 20%Z && among i [7; 8; 9; 10]%nat then left_by 2.7
  else if at_ (-45)%Z 30%Z && among i [8; 9; 10]%nat then left_by 2.7
  else if at_ (-45)%Z 30%Z && (i =? 7)%nat then left_one
  else if at_ 45%Z 0%Z && among i [9; 10]%nat then left_by 1.5
  else if at_ 45%Z 10%Z && among i [9; 10]%nat then left_by 2.7
  else if at_ 45%Z 20%Z && among i [9; 10]%nat then left_by 2.7
  else if at_ 45%Z 30%Z && among i [9; 10]%nat then left_by 2.7
  else if at_ 90%Z 0%Z && among i [9; 10]%nat then left_by 2.7
  else if at_ 90%Z 0%Z && (i =? 8)%nat then left_by 0.7
  else if at_ 90%Z 0%Z && (i <? 6)%nat then down_half
  else if at_ 90%Z 10%Z && among i [9; 10]%nat then left_by 2.7
  else if at_ 90%Z 20%Z && among i [9; 10]%nat then left_by 2.7
  else if at_ 90%Z 30%Z && among i [9; 10]%nat then left_by 2.7
  else if at_ 135%Z 0%Z && among i [9; 10]%nat then left_by 2.0
  else test_case rx h1 h2 x y i.

(** The state the two sweep loops update: [rx] and [test_cases]. *)
Definition sweep_state : Type := (Z * list (list R))%type.

(** [for o2 in os2: ...] for one [o1]. *)
Fixpoint sweep_inner (fac ad o1 : Z) (os2 : list Z) (st : sweep_state)
  : option sweep_state :=
  match os2 with
  | [] => Some st
  | o2 :: rest =>
      if ((o1 =? 0) && (o2 =? 0))%Z then sweep_inner fac ad o1 rest st
      else
        let o2 := (o2 + o1)%Z in
        let rx := (fst st + 12)%Z in
        test_cases <- append_cases (sweep_case rx fac ad o1 o2)
                                   (seq 0 (length lsx)) (snd st) ;;
        sweep_inner fac ad o1 rest (rx, test_cases)
  end.

(** [for o1 in os1: ...]. *)
Fixpoint sweep_outer (fac ad : Z) (os1 os2 : list Z) (st : sweep_state)
  : option sweep_state :=
  match os1 with
  | [] => Some st
  | o1 :: rest =>
      st' <- sweep_inner fac ad o1 os2 st ;;
      sweep_outer fac ad rest os2 st'
  end.

(** The part of [caller] that fills [test_cases].  The two [print] calls
    before the sweep, which echo [os1] and [os2], are [caller_prints]
    below. *)
Definition generate : option (list (list R)) :=
  let rx := 2%Z in
  let ad := 0%Z in
  let fac := 1%Z in
  let test_cases := [] in
  test_cases <-
    append_cases (plain_case rx fac ad) (seq 0 (length lsx)) test_cases ;;
  let rx := (rx + 12)%Z in
  let ad := 1%Z in
  let fac := 1%Z in
  test_cases <-
    append_cases (plain_case rx fac ad) (seq 0 (length lsx)) test_cases ;;
  let rx := (rx + 12)%Z in
  let ad := 1%Z in
  let fac := (-1)%Z in
  test_cases <-
    append_cases (plain_case rx fac ad) (seq 0 (length lsx)) test_cases ;;
  let rx := (rx + 22)%Z in
  let ad := 0%Z in
  let fac := 1%Z in
  test_cases <-
    append_cases (below_case rx fac ad) (seq 0 (length lsx)) test_cases ;;
  let os1 := range (-180) 179 45 in
  let os2 := range 0 31 10 in
  let ad := 0%Z in
  let fac := 0%Z in
  st <- sweep_outer fac ad os1 os2 (rx, test_cases) ;;
  Some (snd st).

(** [is_overlap] applied to the unpacked [case]: the call fails unless the
    list has fourteen elements. *)
Definition is_overlap_star (case : list R) : option bool :=
  match case with
  | [ cx1; cy1; t1; lf1; wl1; lr1; wr1; cx2; cy2; t2; lf2; wl2; lr2; wr2 ] =>
      Some (is_overlap cx1 cy1 t1 lf1 wl1 lr1 wr1 cx2 cy2 t2 lf2 wl2 lr2 wr2)
  | _ => None
  end.

(** [for case in test_cases: ... results.append((case, result))]. *)
Fixpoint classify (test_cases : list (list R)) (results : list (list R * bool))
  : option (list (list R * bool)) :=
  match test_cases with
  | [] => Some results
  | case :: rest =>
      result <- is_overlap_star case ;;
      classify rest (results ++ [(case, result)])
  end.

(** The verdict [classify] records for a well-formed test case. *)
Definition verdict (case : list R) : bool :=
  match is_overlap_star case with
  | Some result => result
  | None => false
  end.

(** [caller]: returns [(results, stopId, startId, test_cases)]. *)
Definition caller
  : option (list (list R * bool) * Z * Z * list (list R)) :=
  test_cases <- generate ;;
  let startId := 0%Z in
  let stopId := Z.of_nat (length test_cases) in
  results <- classify test_cases [] ;;
  Some (results, stopId, startId, test_cases).

(** The test cases [generate] produces. *)
Definition generated : list (list R) :=
  match generate with
  | Some test_cases => test_cases
  | None => []
  end.

(** ** The report loop of [__main__] *)

Open Scope string_scope.

(** [str] of an integer. *)
Definition str (z : Z) : string := NilZero.string_of_int (Z.to_int z).

(** The printed line: the 1-based label [i+1], then the verdict. *)
Definition line {Scenario : Type} (item : Z * (Scenario * bool)) : string :=
  let '(i, (_, result)) := item in
  "Test case " ++ str (i + 1) ++ ": "
    ++ (if result then "Overlap" else "No Overlap").

(** [enumerate(results)]. *)
Definition enumerate {A : Type} (l : list A) : list (Z * A) :=
  combine (map Z.of_nat (seq 0 (length l))) l.

(** [enumerate] with the count started at [k]. *)
Definition enumerate_from {A : Type} (k : nat) (l : list A) : list (Z * A) :=
  combine (map Z.of_nat (seq k (length l))) l.

(** The loop over the enumerated results; the value is the list of lines
    printed, in order. *)
Fixpoint report_loop {Scenario : Type} (stopId startId : Z)
                     (items : list (Z * (Scenario * bool))) : list string :=
  match items with
  | [] => []
  | item :: rest =>
      if (fst item <? startId)%Z then report_loop stopId startId rest
      else line item ::
           (if (fst item =? stopId)%Z then []
            else report_loop stopId startId rest)
  end.

Definition report {Scenario : Type} (results : list (Scenario * bool))
                  (stopId startId : Z)
  : list string :=
  report_loop stopId startId (enumerate results).

(** The output the specification describes: one line for each index of the
    window from [startId] to [min(stopId, length - 1)], in order. *)
Definition window_lines {Scenario : Type} (results : list (Scenario * bool))
                        (stopId startId : Z) : list string :=
  let last := (Z.of_nat (length results) - 1)%Z in
  map line
      (filter (fun item => ((startId <=? fst item)
                            && (fst item <=? Z.min stopId last))%Z)
              (enumerate results)).

(** [print] of a list of integers. *)
Definition str_list (l : list Z) : string :=
  "[" ++ String.concat ", " (map str l) ++ "]".

(** The two lines [caller] prints before the sweep: [print(os1)] and
    [print(os2)]. *)
Definition caller_prints : list string :=
  [ str_list (range (-180) 179 45); str_list (range 0 31 10) ].

(** The [__main__] block: the lines the program prints, those of [caller]
    first (the call of [plot_all_rectangles], which prints nothing, is part
    of [run_main] below). *)
Definition main : option (list string) :=
  r <- caller ;;
  let '(results, stopId, startId, _) := r in
  Some (caller_prints ++ report results stopId startId)%list.

(** Every line from [startId] on. *)
Definition tail_lines {Scenario : Type} (results : list (Scenario * bool))
                      (startId : Z)
  : list string :=
  map line (filter (fun item => (startId <=? fst item)%Z) (enumerate results)).

Close Scope string_scope.

(** Three classified test cases: the first sample of the source, the
    disjoint baseline of the specification, the first generated case. *)
Definition sample_results : list (list R * bool) :=
  [ ([2; 2; 0; 2; 1; 2; 1; 6; 2; 0; 3; 1.5; 3; 1.5], true);
    ([0; 0; 0; 1; 1; 1; 1; 100; 100; 0; 1; 1; 1; 1], false);
    ([2; 4; 0; 1; 1; 1; 2; 3; 4; 0; 1; 0.5; 1; 2], true) ].

(** ** The layout of the generated sequence, as the specification gives it *)

Definition preset_count : nat := 11.

(** Test case [i] of a block at [rx] whose second rectangle has centre
    [(cx2, cy2)] and whose headings are [o1], [o2]. *)
Definition preset_row (rx : Z) (o1 o2 cx2 cy2 : R) (i : nat) : list R :=
  [ IZR rx; IZR (ry + nth i lsy 0%Z); o1; lf1; wl1; lr1; wr1;
    cx2; cy2; o2;
    lf1 + nth i lfs2 0; wl1 + nth i wls2 0; lr1 + nth i lrs2 0;
    wr1 + nth i wrs2 0 ].

(** A baseline block: second rectangle displaced by [lsx[i]], with lateral
    bias [bias]. *)
Definition baseline_block (rx bias : Z) : list (list R) :=
  map (fun i => preset_row rx 0.0 0.0
                  (IZR (rx + nth i lsx 0%Z))
                  (IZR (ry + bias + nth i lsy 0%Z)) i)
      (seq 0 preset_count).

(** The mirrored block: centre x of the second rectangle is
    [2*rx - (rx + lsx[i])]. *)
Definition mirrored_block (rx : Z) : list (list R) :=
  map (fun i => preset_row rx 0.0 0.0
                  (IZR (2 * rx - (rx + nth i lsx 0%Z)))
                  (IZR (ry + nth i lsy 0%Z)) i)
      (seq 0 preset_count).

(** The heading combinations of the sweep, in order: outer heading, inner
    offset, without the pair (0, 0). *)
Definition heading_pairs : list (Z * Z) :=
  filter (fun p => negb ((fst p =? 0) && (snd p =? 0))%Z)
         (list_prod [-180; -135; -90; -45; 0; 45; 90; 135]%Z [0; 10; 20; 30]%Z).

(** A block of the sweep for the heading pair [(o1, off)]: eleven test
    cases, each with headings [o1] and [o1 + off] degrees. *)
Definition sweep_block_ok (p : Z * Z) (block : list (list R)) : Prop :=
  length block = preset_count /\
  Forall (fun c => nth 2 c 0 = deg2rad (IZR (fst p)) /\
                   nth 9 c 0 = deg2rad (IZR (fst p + snd p))) block.

(** Consecutive chunks of [n] elements. *)
Fixpoint chunks {A : Type} (n count : nat) (l : list A) : list (list A) :=
  match count with
  | O => []
  | S count' => firstn n l :: chunks n count' (skipn n l)
  end.

(** ** Rendering: [plot_all_rectangles]

    The figure is recorded as the traces added to it, in order, and the
    titles set by [update_layout]; writing it to the HTML file is left to
    plotly. *)

Record trace : Type := mkTrace {
  tr_name : string;
  tr_x : list R;
  tr_y : list R;
  tr_fill : bool   (* [fill='toself'] for the outlines, markers otherwise *)
}.

Record figure : Type := mkFigure {
  fig_traces : list trace;
  fig_title : string;
  fig_xaxis : string;
  fig_yaxis : string
}.

(** [==] on points. *)
Definition same_point (p q : point) : bool :=
  if Req_dec_T (fst p) (fst q)
  then if Req_dec_T (snd p) (snd q) then true else false
  else false.

(** [polygon.exterior.xy] of shapely: the coordinates of the ring, closed
    by repeating its first vertex unless the last vertex given is already
    equal to the first. *)
Definition exterior_xy (ring : list point) : list R * list R :=
  let closed :=
    match ring with
    | [] => []
    | first :: _ =>
        if same_point first (last ring first) then ring
        else ring ++ [first]
    end in
  (map fst closed, map snd closed).

Open Scope string_scope.

(** The four traces added for the test case of index [i]; unpacking the
    case fails unless it has fourteen elements. *)
Definition case_traces (i : Z) (test_case : list R) : option (list trace) :=
  match test_case with
  | [ cx1; cy1; angle1; lf1; wl1; lr1; wr1;
      cx2; cy2; angle2; lf2; wl2; lr2; wr2 ] =>
      let rect1 := create_rectangle cx1 cy1 angle1 lf1 wl1 lr1 wr1 in
      let rect2 := create_rectangle cx2 cy2 angle2 lf2 wl2 lr2 wr2 in
      let '(x1, y1) := exterior_xy rect1 in
      let '(x2, y2) := exterior_xy rect2 in
      Some [ mkTrace ("R1T" ++ str (i + 1)) y1 x1 true;
             mkTrace ("R2T" ++ str (i + 1)) y2 x2 true;
             mkTrace ("r1cT" ++ str (i + 1)) [cy1] [cx1] false;
             mkTrace ("r2cT" ++ str (i + 1)) [cy2] [cx2] false ]
  | _ => None
  end.

(** The loop of [plot_all_rectangles] over the enumerated results, with the
    traces added so far. *)
Fixpoint plot_loop (stopId startId : Z) (items : list (Z * (list R * bool)))
                   (added : list trace) : option (list trace) :=
  match items with
  | [] => Some added
  | item :: rest =>
      if (fst item <? startId)%Z then plot_loop stopId startId rest added
      else
        ts <- case_traces (fst item) (fst (snd item)) ;;
        let added := (added ++ ts)%list in
        if (fst item =? stopId)%Z then Some added
        else plot_loop stopId startId rest added
  end.

Definition plot_all_rectangles (results : list (list R * bool))
    (filename : string) (stopId startId : Z) : option figure :=
  added <- plot_loop stopId startId (enumerate results) [] ;;
  Some (mkFigure added "Rectangle Overlap Test Cases" "Y Axis" "X Axis").

(** The [__main__] block with its rendering: the figure written and the
    lines printed. *)
Definition run_main : option (figure * list string) :=
  r <- caller ;;
  let '(results, stopId, startId, _) := r in
  fig <- plot_all_rectangles results "all_rectangles_overlap.html"
                             stopId startId ;;
  Some (fig, (caller_prints ++ report results stopId startId)%list).

(** The names of the four traces of the test case of index [i]. *)
Definition trace_names (i : Z) : list string :=
  [ "R1T" ++ str (i + 1); "R2T" ++ str (i + 1);
    "r1cT" ++ str (i + 1); "r2cT" ++ str (i + 1) ].

Close Scope string_scope.

(** The enumerated items both loops process: those from [startId] on, up
    to and including the first processed one whose index is [stopId]. *)
Fixpoint rendered {Scenario : Type} (stopId startId : Z)
                  (items : list (Z * (Scenario * bool)))
  : list (Z * (Scenario * bool)) :=
  match items with
  | [] => []
  | item :: rest =>
      if (fst item <? startId)%Z then rendered stopId startId rest
      else item ::
           (if (fst item =? stopId)%Z then []
            else rendered stopId startId rest)
  end.

(** ** Shape of a generated test case *)



(** A classified test case that unpacks into fourteen numbers. *)
Definition unpacks (item : Z * (list R * bool)) : Prop :=
  length (fst (snd item)) = 14%nat.

(** * The same functions in binary64

    Python floats are IEEE 754 binary64 numbers.  The functions of the
    rectangle model and of the heuristic are embedded a second time over
    the binary64 type, operation by operation and with the association of
    the source, every operation rounding to nearest.  [math.cos] and
    [math.sin] belong to the C library of the platform: their values are
    the parameters [cos] and [sin], and a statement names the values it
    needs from them. *)

(** ** The exact value of a binary64 number *)

(** The fraction [(-1)^s * m * 2^e] of a finite number; infinities and
    NaN, which have no value, are given 0. *)
Definition SF2raw (x : spec_float) : Z * Z :=
  match x with
  | S754_finite s m e =>
      if (0 <=? e)%Z then ((cond_Zopp s (Z.pos m) * 2 ^ e)%Z, 1%Z)
      else (cond_Zopp s (Z.pos m), (2 ^ (- e))%Z)
  | _ => (0%Z, 1%Z)
  end.

(** The same fraction in lowest terms. *)
Definition SF2fraction (x : spec_float) : Z * Z :=
  let '(n, d) := SF2raw x in
  let g := Z.gcd n d in
  ((n / g)%Z, (d / g)%Z).

Definition value (x : float) : R :=
  IZR (fst (SF2fraction (Prim2SF x))) / IZR (snd (SF2fraction (Prim2SF x))).

(** A finite number as an integer multiple of the smallest positive
    number, 2^-1074. *)
Definition scaled (x : spec_float) : Z :=
  match x with
  | S754_finite s m e => cond_Zopp s (Z.pos m * 2 ^ (e + 1074))
  | _ => 0
  end.

(** Neither an infinity nor NaN. *)
Definition SFfinite (x : spec_float) : bool :=
  match x with
  | S754_zero _ | S754_finite _ _ _ => true
  | _ => false
  end.

Definition finite (x : float) : bool := SFfinite (Prim2SF x).

(** The turn made at the vertex [q] on the way from [p] to [r]. *)
Definition turn (p q r : point) : R :=
  (fst q - fst p) * (snd r - snd q) - (snd q - snd p) * (fst r - fst q).

(** A ring of four vertices that turns the same way, strictly, at each of
    them: a convex quadrilateral with area.  For such a ring the region of
    the polygon is the convex hull of the vertices. *)
Definition convex (P : list point) : Prop :=
  match P with
  | [ a; b; c; d ] =>
      (0 < turn a b c /\ 0 < turn b c d /\ 0 < turn c d a /\ 0 < turn d a b) \/
      (turn a b c < 0 /\ turn b c d < 0 /\ turn c d a < 0 /\ turn d a b < 0)
  | _ => False
  end.

Module B64.

Local Open Scope float_scope.

Definition point : Type := (float * float)%type.

(** The exact coordinates of a ring of binary64 points. *)
Definition reals (P : list point) : list (R * R) :=
  map (fun p => (value (fst p), value (snd p))) P.

(** The rectangle whose seven scalars are the exact values of seven
    binary64 numbers. *)
Definition real_rect (cx cy t lf wl lr wr : float) : Rect :=
  mkRect (value cx) (value cy) (value t)
         (value lf) (value wl) (value lr) (value wr).

(** All four extents are nonnegative. *)
Definition valid (lf wl lr wr : float) : bool :=
  (0 <=? lf) && (0 <=? wl) && (0 <=? lr) && (0 <=? wr).

(** All four extents are finite. *)
Definition finite_box (lf wl lr wr : float) : bool :=
  finite lf && finite wl && finite lr && finite wr.

(** Every coordinate of the ring is finite. *)
Definition finite_ring (P : list point) : bool :=
  forallb (fun p => finite (fst p) && finite (snd p)) P.

(** Neither heading is infinite. *)
Definition headings_ok (t1 t2 : float) : bool :=
  negb (is_infinity t1) && negb (is_infinity t2).

(** Two points with numerically equal coordinates ([==] of Python, which
    does not tell the two zeros apart). *)
Definition same (p q : point) : bool :=
  (fst p =? fst q) && (snd p =? snd q).

Section Libm.

Variables cos sin : float -> float.

(** [math.cos] and [math.sin] raise [ValueError] on an infinite argument
    (a failed call is [None]); on NaN they return NaN. *)
Definition math_cos (x : float) : option float :=
  if is_infinity x then None else Some (cos x).

Definition math_sin (x : float) : option float :=
  if is_infinity x then None else Some (sin x).

(** The local [corners] list of [create_rectangle]. *)
Definition corners (lf wl lr wr : float) : list point :=
  [ (- lr, - wr); (lf, - wr); (lf, wl); (- lr, wl) ].

(** [create_rectangle]: the list [transformed_corners] handed to
    [Polygon]. *)
Definition create_rectangle (cx cy angle lf wl lr wr : float)
  : option (list point) :=
  cos_a <- math_cos angle ;;
  sin_a <- math_sin angle ;;
  Some (map (fun '(x, y) =>
               (cx + cos_a * x - sin_a * y, cy + sin_a * x + cos_a * y))
            (corners lf wl lr wr)).

(** [overlap] returns [True]: both rings are built, and they intersect.
    shapely works on the ring it is given, that is on the rounded
    vertices; [intersects] is read on their exact values.  The statements
    below use it for rings with finite vertices that are convex
    quadrilaterals with area; what shapely answers for other rings is not
    modelled. *)
Definition overlap
    (cx1 cy1 angle1 lf1 wl1 lr1 wr1 cx2 cy2 angle2 lf2 wl2 lr2 wr2 : float)
  : Prop :=
  exists rect1 rect2,
    create_rectangle cx1 cy1 angle1 lf1 wl1 lr1 wr1 = Some rect1 /\
    create_rectangle cx2 cy2 angle2 lf2 wl2 lr2 wr2 = Some rect2 /\
    intersects (reals rect1) (reals rect2).

(** The two coordinate lists at the head of [transform_and_check]. *)
Definition corners_y (wl1 wr1 : float) : list float :=
  [ wl1; - wr1; - wr1; wl1 ].
Definition corners_x (lf1 lr1 : float) : list float :=
  [ - lr1; - lr1; lf1; lf1 ].

(** The body of the loop for the corner [(x, y)], up to the pair
    [(lx, ly)]: the position of the corner in the frame of the second
    rectangle, as computed. *)
Definition local_xy (cx1 cy1 ct1 st1 cx2 cy2 ct2 st2 x y : float) : point :=
  let x_rot := (x * ct1) - (y * st1) in
  let y_rot := (x * st1) + (y * ct1) in
  let x_global := x_rot + cx1 in
  let y_global := y_rot + cy1 in
  let tx := x_global - cx2 in
  let ty := y_global - cy2 in
  let lx := (tx * ct2) + (ty * st2) in
  let ly := (- tx * st2) + (ty * ct2) in
  (lx, ly).

(** The condition of the [if]:
    [min_x <= lx <= max_x and min_y <= ly <= max_y]. *)
Definition within (min_x max_x min_y max_y : float) (p : point) : bool :=
  (min_x <=? fst p) && (fst p <=? max_x) &&
  (min_y <=? snd p) && (snd p <=? max_y).

Definition corner_check (cx1 cy1 ct1 st1 cx2 cy2 ct2 st2
                         min_x max_x min_y max_y x y : float) : bool :=
  within min_x max_x min_y max_y
         (local_xy cx1 cy1 ct1 st1 cx2 cy2 ct2 st2 x y).

Fixpoint corner_loop (check : float -> float -> bool) (xs ys : list float)
                     (indices : list nat) : bool :=
  match indices with
  | [] => false
  | i :: rest =>
      if check (nth i xs 0) (nth i ys 0) then true
      else corner_loop check xs ys rest
  end.

Definition transform_and_check
    (cx1 cy1 t1 lf1 wl1 lr1 wr1 cx2 cy2 t2 lf2 wl2 lr2 wr2 : float)
  : option bool :=
  let ys := corners_y wl1 wr1 in
  let xs := corners_x lf1 lr1 in
  ct1 <- math_cos t1 ;;
  st1 <- math_sin t1 ;;
  ct2 <- math_cos t2 ;;
  st2 <- math_sin t2 ;;
  let min_y := - wr2 in
  let max_y := wl2 in
  let min_x := - lr2 in
  let max_x := lf2 in
  Some (corner_loop
          (corner_check cx1 cy1 ct1 st1 cx2 cy2 ct2 st2
                        min_x max_x min_y max_y)
          xs ys (seq 0 4)).

(** [a or b]: the second call is made only when the first returns
    [False]. *)
Definition is_overlap
    (cx1 cy1 t1 lf1 wl1 lr1 wr1 cx2 cy2 t2 lf2 wl2 lr2 wr2 : float)
  : option bool :=
  first <- transform_and_check cx1 cy1 t1 lf1 wl1 lr1 wr1
                               cx2 cy2 t2 lf2 wl2 lr2 wr2 ;;
  if first then Some true
  else transform_and_check cx2 cy2 t2 lf2 wl2 lr2 wr2
                           cx1 cy1 t1 lf1 wl1 lr1 wr1.

(** The local corners in the order [transform_and_check] visits them. *)
Definition visited_corners (lf wl lr wr : float) : list point :=
  combine (corners_x lf lr) (corners_y wl wr).

(** A corner of the first rectangle, at its computed position in the frame
    of the second, passes the test of the second. *)
Definition corner_inside
    (cx1 cy1 t1 lf1 wl1 lr1 wr1 cx2 cy2 t2 lf2 wl2 lr2 wr2 : float) : Prop :=
  exists c, In c (visited_corners lf1 wl1 lr1 wr1) /\
    within (- lr2) lf2 (- wr2) wl2
      (local_xy cx1 cy1 (cos t1) (sin t1) cx2 cy2 (cos t2) (sin t2)
                (fst c) (snd c)) = true.

(** The position of the corner [c] of the first rectangle in the frame of
    the second is computed without rounding error: the computed pair has
    the value of the exact position of the corner. *)
Definition exact_position
    (cx1 cy1 t1 cx2 cy2 t2 : float) (c : point) : Prop :=
  let p := local_xy cx1 cy1 (cos t1) (sin t1) cx2 cy2 (cos t2) (sin t2)
                    (fst c) (snd c) in
  (value (fst p), value (snd p))
  = to_local (value cx2) (value cy2) (value t2)
      (to_global (value cx1) (value cy1) (value t1)
         (value (fst c), value (snd c))).

(** A corner of the first rectangle passes the test of the second, and
    its position is computed without rounding error. *)
Definition exactly_inside
    (cx1 cy1 t1 lf1 wl1 lr1 wr1 cx2 cy2 t2 lf2 wl2 lr2 wr2 : float) : Prop :=
  exists c, In c (visited_corners lf1 wl1 lr1 wr1) /\
    within (- lr2) lf2 (- wr2) wl2
      (local_xy cx1 cy1 (cos t1) (sin t1) cx2 cy2 (cos t2) (sin t2)
                (fst c) (snd c)) = true /\
    exact_position cx1 cy1 t1 cx2 cy2 t2 c.

(** The ring of a rectangle is built, and without rounding error: its
    vertices are finite and have the values of the exact vertices; and it
    is a convex quadrilateral with area. *)
Definition exact_ring (cx cy t lf wl lr wr : float) : Prop :=
  exists rect,
    create_rectangle cx cy t lf wl lr wr = Some rect /\
    finite_ring rect = true /\
    reals rect = polygon (real_rect cx cy t lf wl lr wr) /\
    convex (reals rect).

(** Both rings are built, their vertices are finite, they are convex
    quadrilaterals with area, and their open regions share a point. *)
Definition share_interior
    (cx1 cy1 t1 lf1 wl1 lr1 wr1 cx2 cy2 t2 lf2 wl2 lr2 wr2 : float) : Prop :=
  exists rect1 rect2,
    create_rectangle cx1 cy1 t1 lf1 wl1 lr1 wr1 = Some rect1 /\
    create_rectangle cx2 cy2 t2 lf2 wl2 lr2 wr2 = Some rect2 /\
    finite_ring rect1 = true /\ finite_ring rect2 = true /\
    convex (reals rect1) /\ convex (reals rect2) /\
    exists g, interior (reals rect1) g /\ interior (reals rect2) g.

End Libm.

(** The headings the examples use, and the values glibc's [math.cos] and
    [math.sin] return on them; the other headings are not needed and are
    given NaN. *)
Definition quarter_pi : float := 0x1.921fb54442d18p-1.

Definition cos_sampled (t : float) : float :=
  if t =? 0 then 1
  else if abs t =? quarter_pi then 0x1.6a09e667f3bcdp-1
  else nan.

Definition sin_sampled (t : float) : float :=
  if t =? 0 then 0
  else if t =? quarter_pi then 0x1.6a09e667f3bccp-1
  else if t =? - quarter_pi then -0x1.6a09e667f3bccp-1
  else nan.

End B64.

(** * Properties *)

Lemma Rleb_true_iff (a b : R) : Rleb a b = true <-> a <= b.
Proof.
  unfold Rleb. destruct (Rle_dec a b); split; intros; auto; discriminate.
Qed.

Lemma Rleb_false_iff (a b : R) : Rleb a b = false <-> b < a.
Proof.
  unfold Rleb. destruct (Rle_dec a b); split; intros; auto; try discriminate; lra.
Qed.

(** ** The loop of [transform_and_check] *)

Section CornerLoop.

Variables cx1 cy1 t1 cx2 cy2 t2 lf2 wl2 lr2 wr2 : R.

Lemma corner_check_spec (x y : R) :
  corner_check cx1 cy1 (cos t1) (sin t1) cx2 cy2 (cos t2) (sin t2)
               (- lr2) lf2 (- wr2) wl2 x y = true
  <-> in_box lf2 wl2 lr2 wr2
        (to_local cx2 cy2 t2 (to_global cx1 cy1 t1 (x, y))).
Proof.
  unfold corner_check, in_box, to_local, to_global; cbn [fst snd].
  rewrite !andb_true_iff, !Rleb_true_iff. tauto.
Qed.

Lemma corner_loop_four (check : R -> R -> bool) (a b c d a' b' c' d' : R) :
  corner_loop check [a; b; c; d] [a'; b'; c'; d'] (seq 0 4)
  = check a a' || check b b' || check c c' || check d d'.
Proof.
  cbn. destruct (check a a'), (check b b'), (check c c'), (check d d');
    reflexivity.
Qed.

End CornerLoop.

Lemma tac_spec (A B : Rect) : tac A B = true <-> corner_inside A B.
Proof.
  unfold tac, transform_and_check, corner_inside, visited_corners.
  unfold corners_x, corners_y. rewrite corner_loop_four.
  rewrite !orb_true_iff, !corner_check_spec. cbn [combine In].
  split.
  - intros [[[H | H] | H] | H]; eexists; (split; [ | exact H ]); auto.
  - intros [c [[E | [E | [E | [E | []]]]] H]]; subst c; auto.
Qed.

Lemma heuristic_spec (A B : Rect) :
  heuristic A B = true <-> corner_inside A B \/ corner_inside B A.
Proof.
  unfold heuristic, is_overlap. fold (tac A B). fold (tac B A).
  rewrite orb_true_iff, !tac_spec. tauto.
Qed.

Lemma heuristic_false (A B : Rect) :
  heuristic A B = false <-> ~ corner_inside A B /\ ~ corner_inside B A.
Proof.
  rewrite <- not_true_iff_false, heuristic_spec. tauto.
Qed.

(** [Forall] over an explicit list, one side goal per element. *)
Ltac forall_list tac :=
  repeat (apply Forall_cons; [ tac | ]); apply Forall_nil.

(** ** Frames: local and global coordinates *)

Lemma trig_one (t : R) : cos t * cos t + sin t * sin t = 1.
Proof.
  generalize (sin2_cos2 t). unfold Rsqr. lra.
Qed.

Lemma to_local_to_global (cx cy t : R) (p : point) :
  to_local cx cy t (to_global cx cy t p) = p.
Proof.
  destruct p as [x y]. unfold to_local, to_global; cbn [fst snd].
  pose proof (trig_one t) as H. f_equal.
  - transitivity (x * (cos t * cos t + sin t * sin t)); [ ring | rewrite H; ring ].
  - transitivity (y * (cos t * cos t + sin t * sin t)); [ ring | rewrite H; ring ].
Qed.

Lemma to_global_to_local (cx cy t : R) (g : point) :
  to_global cx cy t (to_local cx cy t g) = g.
Proof.
  destruct g as [x y]. unfold to_local, to_global; cbn [fst snd].
  pose proof (trig_one t) as H. f_equal.
  - transitivity ((x - cx) * (cos t * cos t + sin t * sin t) + cx);
      [ ring | rewrite H; ring ].
  - transitivity ((y - cy) * (cos t * cos t + sin t * sin t) + cy);
      [ ring | rewrite H; ring ].
Qed.

Lemma create_rectangle_global (cx cy t lf wl lr wr : R) :
  create_rectangle cx cy t lf wl lr wr
  = map (to_global cx cy t) (corners lf wl lr wr).
Proof.
  unfold create_rectangle, corners, to_global; cbn.
  repeat match goal with
         | |- _ :: _ = _ :: _ => apply f_equal2
         | |- (_, _) = (_, _) => apply f_equal2
         end; try ring; reflexivity.
Qed.

(** ** Convex combinations of the vertices *)

Section Hull.

Variables cx cy t : R.

Lemma weighted_sum_global (ws : list R) (P : list point) :
  length ws = length P ->
  weighted_sum ws (map (to_global cx cy t) P)
  = (fst (weighted_sum ws P) * cos t - snd (weighted_sum ws P) * sin t
       + total ws * cx,
     fst (weighted_sum ws P) * sin t + snd (weighted_sum ws P) * cos t
       + total ws * cy).
Proof.
  revert P. induction ws as [ | w ws IH ]; intros [ | p P ] Hlen;
    try discriminate.
  - cbn. f_equal; ring.
  - cbn [weighted_sum map total fold_right]. fold (total ws).
    rewrite IH by (cbn in Hlen; congruence).
    cbn [fst snd]. unfold to_global; cbn [fst snd]. f_equal; ring.
Qed.

Lemma weighted_sum_convex_global (ws : list R) (P : list point) :
  length ws = length P -> total ws = 1 ->
  weighted_sum ws (map (to_global cx cy t) P)
  = to_global cx cy t (weighted_sum ws P).
Proof.
  intros Hlen Htot. rewrite weighted_sum_global by assumption.
  rewrite Htot. unfold to_global. f_equal; ring.
Qed.

End Hull.

Lemma weighted_sum_between (lo hi lo' hi' : R) (ws : list R) (P : list point) :
  length ws = length P ->
  Forall (fun w => 0 <= w) ws ->
  Forall (fun p => lo <= fst p <= hi /\ lo' <= snd p <= hi') P ->
  (total ws * lo <= fst (weighted_sum ws P) <= total ws * hi) /\
  (total ws * lo' <= snd (weighted_sum ws P) <= total ws * hi').
Proof.
  revert P. induction ws as [ | w ws IH ]; intros [ | p P ] Hlen Hw HP;
    try discriminate; cbn [weighted_sum total fold_right fst snd].
  - lra.
  - fold (total ws). inversion Hw as [ | ? ? Hw0 Hws ]; subst.
    inversion HP as [ | ? ? Hp0 HPs ]; subst.
    destruct (IH P) as [Hx Hy]; auto.
    split; nra.
Qed.

Lemma interpolate (lo hi u : R) :
  lo <= u <= hi -> exists a, 0 <= a <= 1 /\ u = (1 - a) * lo + a * hi.
Proof.
  intros Hu. destruct (Req_dec lo hi) as [E | N].
  - exists 0. split; lra.
  - exists ((u - lo) / (hi - lo)). split.
    + split.
      * apply Rmult_le_pos; [ lra | ]. left. apply Rinv_0_lt_compat. lra.
      * apply Rmult_le_reg_r with (hi - lo); [ lra | ].
        unfold Rdiv. rewrite Rmult_assoc, Rinv_l by lra. lra.
    + field. lra.
Qed.

(** The closed region of a rectangle is the image of its local box. *)
Lemma box_covers (A : Rect) (g : point) :
  in_box (r_lf A) (r_wl A) (r_lr A) (r_wr A)
         (to_local (r_cx A) (r_cy A) (r_t A) g) ->
  covers (polygon A) g.
Proof.
  intros [Hu Hv].
  destruct (interpolate _ _ _ Hu) as [a [Ha Eu]].
  destruct (interpolate _ _ _ Hv) as [b [Hb Ev]].
  exists [ (1 - a) * (1 - b); a * (1 - b); a * b; (1 - a) * b ].
  unfold polygon. rewrite create_rectangle_global.
  split; [ reflexivity | ]. split.
  - forall_list nra.
  - split; [ cbn; ring | ].
    rewrite weighted_sum_convex_global; [ | reflexivity | cbn; ring ].
    rewrite <- (to_global_to_local (r_cx A) (r_cy A) (r_t A) g).
    f_equal. rewrite (surjective_pairing (to_local _ _ _ g)).
    rewrite Eu, Ev. cbn. f_equal; ring.
Qed.

Lemma covers_box (A : Rect) (g : point) :
  - r_lr A <= r_lf A -> - r_wr A <= r_wl A ->
  covers (polygon A) g ->
  in_box (r_lf A) (r_wl A) (r_lr A) (r_wr A)
         (to_local (r_cx A) (r_cy A) (r_t A) g).
Proof.
  intros Hx Hy [ws [Hlen [Hw [Htot Hg]]]].
  unfold polygon in Hlen, Hg. rewrite create_rectangle_global in Hlen, Hg.
  rewrite length_map in Hlen.
  rewrite weighted_sum_convex_global in Hg by assumption.
  subst g. rewrite to_local_to_global.
  destruct (weighted_sum_between (- r_lr A) (r_lf A) (- r_wr A) (r_wl A)
              ws (corners (r_lf A) (r_wl A) (r_lr A) (r_wr A))) as [H1 H2];
    auto.
  - unfold corners. forall_list ltac:(cbn [fst snd]; lra).
  - rewrite Htot in H1, H2. unfold in_box. lra.
Qed.

Lemma interior_covers (P : list point) (g : point) :
  interior P g -> covers P g.
Proof.
  intros [ws [Hlen [Hw [Htot Hg]]]]. exists ws. repeat split; auto.
  eapply Forall_impl; [ | exact Hw ]. cbn. intros; lra.
Qed.

(** A corner of a rectangle, in the global frame, is a point of its region. *)
Lemma corner_covers (A : Rect) (c : point) :
  In c (visited_corners (r_lf A) (r_wl A) (r_lr A) (r_wr A)) ->
  covers (polygon A) (to_global (r_cx A) (r_cy A) (r_t A) c).
Proof.
  intros Hc. unfold polygon. rewrite create_rectangle_global.
  unfold visited_corners, corners_x, corners_y in Hc. cbn [combine In] in Hc.
  unfold corners; cbn [map].
  destruct Hc as [E | [E | [E | [E | []]]]]; subst c;
    [ exists [0; 0; 0; 1] | exists [1; 0; 0; 0]
    | exists [0; 1; 0; 0] | exists [0; 0; 1; 0] ];
    (split; [ reflexivity | ]);
    (split; [ forall_list lra | ]);
    (split; [ cbn; ring | ]);
    unfold to_global; cbn; apply f_equal2; ring.
Qed.

(** ** HeuristicOverlapTester: the stated properties *)

(** C2 (symmetry).  For any two rectangles, each given by seven scalars of
    any sign, [is_overlap] on (A, B) returns the same boolean as on (B, A). *)
Theorem is_overlap_symmetric
    (cx1 cy1 t1 lf1 wl1 lr1 wr1 cx2 cy2 t2 lf2 wl2 lr2 wr2 : R) :
  is_overlap cx1 cy1 t1 lf1 wl1 lr1 wr1 cx2 cy2 t2 lf2 wl2 lr2 wr2
  = is_overlap cx2 cy2 t2 lf2 wl2 lr2 wr2 cx1 cy1 t1 lf1 wl1 lr1 wr1.
Proof.
  unfold is_overlap. apply orb_comm.
Qed.

(** In exact arithmetic the round trip of a corner through the global
    frame is the identity, so a rectangle whose four extents are
    nonnegative, at any centre and any heading, overlaps itself: its
    rear-left corner lies on the boundary of its own box. *)
Lemma self_overlap (cx cy t lf wl lr wr : R) :
  0 <= lf -> 0 <= wl -> 0 <= lr -> 0 <= wr ->
  is_overlap cx cy t lf wl lr wr cx cy t lf wl lr wr = true.
Proof.
  intros Hlf Hwl Hlr Hwr.
  apply (heuristic_spec (mkRect cx cy t lf wl lr wr) (mkRect cx cy t lf wl lr wr)).
  left. exists (- lr, wl). cbn [r_cx r_cy r_t r_lf r_wl r_lr r_wr]. split.
  - unfold visited_corners, corners_x, corners_y. cbn. auto.
  - rewrite to_local_to_global. unfold in_box; cbn [fst snd]. lra.
Qed.

(** In exact arithmetic two unrotated rectangles with nonnegative extents,
    placed so that the rear edge of the second is the front edge of the
    first, are reported as overlapping: the front-left corner of the first
    lands on the rear-left corner of the box of the second. *)
Lemma edge_touch_exact (cx1 cy1 lf1 wl1 lr1 wr1 cx2 cy2 lf2 wl2 lr2 wr2 : R) :
  0 <= lf1 -> 0 <= wl1 -> 0 <= lr1 -> 0 <= wr1 ->
  0 <= lf2 -> 0 <= wl2 -> 0 <= lr2 -> 0 <= wr2 ->
  cx2 - lr2 = cx1 + lf1 ->
  cy2 - wr2 = cy1 - wr1 -> cy2 + wl2 = cy1 + wl1 ->
  is_overlap cx1 cy1 0 lf1 wl1 lr1 wr1 cx2 cy2 0 lf2 wl2 lr2 wr2 = true.
Proof.
  intros Hlf1 Hwl1 Hlr1 Hwr1 Hlf2 Hwl2 Hlr2 Hwr2 Hx Hr Hl.
  apply (heuristic_spec (mkRect cx1 cy1 0 lf1 wl1 lr1 wr1)
                        (mkRect cx2 cy2 0 lf2 wl2 lr2 wr2)).
  left. exists (lf1, wl1). cbn [r_cx r_cy r_t r_lf r_wl r_lr r_wr]. split.
  - unfold visited_corners, corners_x, corners_y. cbn. auto.
  - unfold in_box, to_local, to_global; cbn [fst snd].
    rewrite cos_0, sin_0. lra.
Qed.

(** C10 (empty box).  When the opposite extents of a rectangle sum to a
    negative number along either axis, its local box is empty:
    [transform_and_check] with that rectangle as the target returns false
    whatever the other rectangle is, and the rectangle does not overlap
    itself. *)
Theorem empty_box_never_contains (cx cy t lf wl lr wr : R) :
  lf + lr < 0 \/ wl + wr < 0 ->
  (forall p, ~ in_box lf wl lr wr p)
  /\
  (forall cx1 cy1 t1 lf1 wl1 lr1 wr1,
      transform_and_check cx1 cy1 t1 lf1 wl1 lr1 wr1 cx cy t lf wl lr wr
      = false)
  /\ is_overlap cx cy t lf wl lr wr cx cy t lf wl lr wr = false.
Proof.
  intros Hneg.
  assert (Hno : forall A, ~ corner_inside A (mkRect cx cy t lf wl lr wr)).
  { intros A [c [_ [Hu Hv]]]. cbn [r_lf r_wl r_lr r_wr] in Hu, Hv. lra. }
  split; [ | split ].
  - intros p [Hu Hv]. lra.
  - intros cx1 cy1 t1 lf1 wl1 lr1 wr1. apply not_true_iff_false.
    intros H.
    apply (tac_spec (mkRect cx1 cy1 t1 lf1 wl1 lr1 wr1)
                    (mkRect cx cy t lf wl lr wr)) in H.
    exact (Hno _ H).
  - apply (heuristic_false (mkRect cx cy t lf wl lr wr)
                           (mkRect cx cy t lf wl lr wr)).
    split; apply Hno.
Qed.

Lemma empty_box_never_contains_witness :
  (forall p, ~ in_box 1 1 (-2) 1 p)
  /\
  (forall cx1 cy1 t1 lf1 wl1 lr1 wr1,
      transform_and_check cx1 cy1 t1 lf1 wl1 lr1 wr1 0 0 0 1 1 (-2) 1 = false)
  /\ is_overlap 0 0 0 1 1 (-2) 1 0 0 0 1 1 (-2) 1 = false.
Proof.
  apply (empty_box_never_contains 0 0 0 1 1 (-2) 1). left. lra.
Defined.

(** Evaluation of the heuristic on unrotated rectangles with numeric
    coordinates: every comparison is settled by linear arithmetic. *)
Ltac settle_Rleb :=
  repeat match goal with
         | |- context [Rleb ?a ?b] =>
             first [ rewrite (proj2 (Rleb_true_iff a b)) by lra
                   | rewrite (proj2 (Rleb_false_iff a b)) by lra ]
         end.

Ltac run_unrotated :=
  unfold heuristic, tac, is_overlap, transform_and_check, corners_x, corners_y;
  cbn [r_cx r_cy r_t r_lf r_wl r_lr r_wr];
  rewrite ?corner_loop_four; unfold corner_check;
  rewrite ?cos_0, ?sin_0; settle_Rleb; reflexivity.

(** C3, the claim as stated, fails: a wide flat rectangle [A] and a
    rectangle [B] dipping into its long side overlap through two corners of
    [B]; after every extent of [B] has grown, [B'] crosses [A] completely,
    all its corners are outside [A], no corner of [A] is inside [B'], and the
    heuristic answers false. *)
Lemma growth_loses_overlap :
  let A := mkRect 0 0 0 10 2 10 2 in
  let B := mkRect 0 3 0 1 1 1 2 in
  let B' := mkRect 0 3 0 2 2 2 6 in
  grown B B' /\ heuristic A B = true /\ heuristic A B' = false.
Proof.
  cbv zeta. split; [ | split ].
  - unfold grown; cbn. repeat split; lra.
  - run_unrotated.
  - run_unrotated.
Qed.

(** C3 (containment monotonicity, amended).  When a corner of [A] lies in
    the local box of [B] (the first direction of the heuristic succeeds),
    the heuristic still answers true after all four extents of [B] have
    strictly increased in place. *)
Theorem growth_keeps_contained_corner (A B B' : Rect) :
  tac A B = true -> grown B B' -> heuristic A B' = true.
Proof.
  intros H [Ex [Ey [Et [Hlf [Hwl [Hlr Hwr]]]]]].
  apply heuristic_spec. left. apply tac_spec in H.
  destruct H as [c [Hc [Hu Hv]]]. exists c. split; [ exact Hc | ].
  rewrite Ex, Ey, Et. unfold in_box. lra.
Qed.

Lemma growth_keeps_contained_corner_witness :
  heuristic (mkRect 0 0 0 1 1 1 1) (mkRect 2 0 0 2 2 2 2) = true.
Proof.
  apply (growth_keeps_contained_corner
           (mkRect 0 0 0 1 1 1 1) (mkRect 2 0 0 1 1 1 1) (mkRect 2 0 0 2 2 2 2)).
  - run_unrotated.
  - unfold grown; cbn. repeat split; lra.
Defined.

(** C7, the claim as stated, fails: with front 1, left 2, rear 3, right 4
    the corners visited by [transform_and_check] start at the rear-left
    corner, while the list of [create_rectangle] starts at the rear-right
    one. *)
Lemma visited_corners_differ :
  visited_corners 1 2 3 4 = [ (-3, 2); (-3, -4); (1, -4); (1, 2) ] /\
  corners 1 2 3 4 = [ (-3, -4); (1, -4); (1, 2); (-3, 2) ] /\
  visited_corners 1 2 3 4 <> corners 1 2 3 4.
Proof.
  split; [ reflexivity | ]. split; [ reflexivity | ].
  unfold visited_corners, corners, corners_x, corners_y. cbn.
  intros E. injection E as E _. lra.
Qed.

(** C7 (corner order, amended).  The corner pairs formed from [corners_x]
    and [corners_y] are rear-left, rear-right, front-right, front-left: the
    four corners of [create_rectangle] in the same cyclic order, started one
    position earlier (at its last element). *)
Theorem visited_corners_rotation (lf wl lr wr : R) :
  visited_corners lf wl lr wr
  = [ (- lr, wl); (- lr, - wr); (lf, - wr); (lf, wl) ] /\
  visited_corners lf wl lr wr
  = skipn 3 (corners lf wl lr wr) ++ firstn 3 (corners lf wl lr wr) /\
  Permutation (visited_corners lf wl lr wr) (corners lf wl lr wr).
Proof.
  split; [ reflexivity | ]. split; [ reflexivity | ].
  unfold visited_corners, corners, corners_x, corners_y. cbn.
  exact (Permutation_cons_append
           [ (- lr, - wr); (lf, - wr); (lf, wl) ] (- lr, wl)).
Qed.

(** ** Squares headed at 45 and -45 degrees *)

Lemma quarter_facts :
  sin (PI / 4) = cos (PI / 4) /\
  cos (PI / 4) * cos (PI / 4) = 1 / 2 /\
  1 / 2 < cos (PI / 4).
Proof.
  pose proof sin_cos_PI4 as Hs. pose proof (trig_one (PI / 4)) as H1.
  rewrite Hs in H1.
  assert (Hpos : 0 < cos (PI / 4)).
  { rewrite cos_PI4. apply Rdiv_lt_0_compat; [ lra | ].
    apply sqrt_lt_R0. lra. }
  repeat split; [ exact Hs | lra | nra ].
Qed.

(** A point of a rectangle headed at -45 degrees, seen from the frame of a
    rectangle headed at 45 degrees: the two frames differ by a quarter turn. *)
Lemma quarter_turn_frame (cx1 cy1 cx2 cy2 : R) (p : point) :
  to_local cx1 cy1 (PI / 4) (to_global cx2 cy2 (- (PI / 4)) p)
  = (snd p + ((cx2 - cx1) + (cy2 - cy1)) * cos (PI / 4),
     - fst p + ((cy2 - cy1) - (cx2 - cx1)) * cos (PI / 4)).
Proof.
  destruct quarter_facts as [Hs [Hk _]]. destruct p as [x y].
  unfold to_local, to_global; cbn [fst snd].
  rewrite cos_neg, sin_neg, Hs. set (k := cos (PI / 4)) in *.
  apply f_equal2.
  - transitivity (2 * y * (k * k) + (cx2 - cx1 + (cy2 - cy1)) * k);
      [ ring | rewrite Hk; field ].
  - transitivity (- (2 * x * (k * k)) + (cy2 - cy1 - (cx2 - cx1)) * k);
      [ ring | rewrite Hk; field ].
Qed.

(** The geometry of the instance the specification names.  Two squares of
    the same side headed at 45 and -45 degrees have parallel sides:
    whenever their closed regions share a point, a corner of the second
    lies in the box of the first, so they cannot cross as a star. *)
Lemma parallel_squares_share_a_corner (A B : Rect) (s : R) :
  r_t A = PI / 4 -> r_t B = - (PI / 4) -> 0 <= s ->
  r_lf A + r_lr A = s -> r_wl A + r_wr A = s ->
  r_lf B + r_lr B = s -> r_wl B + r_wr B = s ->
  exact A B -> corner_inside B A.
Proof.
  intros HtA HtB Hs HA1 HA2 HB1 HB2 [g [HgA HgB]].
  fold (polygon A) in HgA. fold (polygon B) in HgB.
  apply covers_box in HgA; [ | lra | lra ].
  apply covers_box in HgB; [ | lra | lra ].
  rewrite <- (to_global_to_local (r_cx B) (r_cy B) (r_t B) g) in HgA.
  destruct (to_local (r_cx B) (r_cy B) (r_t B) g) as [u v].
  rewrite HtA, HtB, quarter_turn_frame in HgA.
  destruct HgA as [Hu Hv]. destruct HgB as [Hu' Hv']. cbn [fst snd] in *.
  unfold corner_inside.
  rewrite HtA, HtB.
  set (dx := (r_cx B - r_cx A + (r_cy B - r_cy A)) * cos (PI / 4)) in *.
  set (dy := (r_cy B - r_cy A - (r_cx B - r_cx A)) * cos (PI / 4)) in *.
  assert (Hpick : exists x y,
             (x = - r_lr B \/ x = r_lf B) /\ (y = - r_wr B \/ y = r_wl B) /\
             - r_lr A <= y + dx <= r_lf A /\ - r_wr A <= - x + dy <= r_wl A).
  { destruct (Rle_lt_dec (- r_lr A) (- r_wr B + dx)) as [Hy | Hy];
      destruct (Rle_lt_dec (- r_wr A) (- r_lf B + dy)) as [Hx | Hx].
    - exists (r_lf B), (- r_wr B). repeat split; auto; lra.
    - exists (- r_lr B), (- r_wr B). repeat split; auto; lra.
    - exists (r_lf B), (r_wl B). repeat split; auto; lra.
    - exists (- r_lr B), (r_wl B). repeat split; auto; lra. }
  destruct Hpick as [x [y [Hx [Hy [Hbx Hby]]]]].
  exists (x, y). split.
  - unfold visited_corners, corners_x, corners_y; cbn [combine In].
    destruct Hx; destruct Hy; subst x y; auto.
  - rewrite quarter_turn_frame. unfold in_box; cbn [fst snd].
    fold dx. fold dy. lra.
Qed.

(** ** ScenarioGenerator: the generated sequence *)

Lemma is_overlap_star_total (case : list R) :
  length case = 14%nat -> is_overlap_star case = Some (verdict case).
Proof.
  intros H. unfold verdict.
  do 15 (destruct case as [ | ? case ]; try discriminate H).
  reflexivity.
Qed.

Lemma classify_total (test_cases : list (list R)) :
  Forall (fun c => length c = 14%nat) test_cases ->
  forall results,
    classify test_cases results
    = Some (results ++ map (fun c => (c, verdict c)) test_cases).
Proof.
  induction 1 as [ | c rest Hc _ IH ]; intros results; cbn [classify map].
  - rewrite app_nil_r. reflexivity.
  - rewrite (is_overlap_star_total c Hc). cbn [bind].
    rewrite IH, <- app_assoc. reflexivity.
Qed.

Lemma generate_runs : generate = Some generated.
Proof. vm_compute. reflexivity. Qed.

Lemma generated_arity : Forall (fun c => length c = 14%nat) generated.
Proof.
  apply Forall_forall. intros c Hc.
  assert (H : forallb (fun c => Nat.eqb (length c) 14) generated = true)
    by (vm_compute; reflexivity).
  rewrite forallb_forall in H. apply Nat.eqb_eq. apply H. exact Hc.
Qed.

Lemma generated_length : length generated = 385%nat.
Proof. vm_compute. reflexivity. Qed.

Lemma caller_runs :
  caller
  = Some (map (fun c => (c, verdict c)) generated, 385%Z, 0%Z, generated).
Proof.
  unfold caller. rewrite generate_runs. cbn [bind].
  rewrite (classify_total generated generated_arity), generated_length.
  reflexivity.
Qed.

(** C8 (scenario generator).  [caller] returns 385 test cases of fourteen
    numbers each, classified in generation order: the centred, right-shifted
    and left-shifted baseline blocks and the mirrored block, eleven presets
    each, then one block of eleven presets for each of the 31 heading pairs
    of the sweep (8 outer headings times 4 offsets, the pair (0, 0)
    skipped), in order. *)
Theorem caller_generates_385 :
  exists results test_cases sweep,
    caller = Some (results, 385%Z, 0%Z, test_cases) /\
    map fst results = test_cases /\
    length test_cases = 385%nat /\
    Forall (fun c => length c = 14%nat) test_cases /\
    test_cases
    = baseline_block 2 0 ++ baseline_block 14 1 ++ baseline_block 26 (-1)
      ++ mirrored_block 48 ++ concat sweep /\
    length heading_pairs = (8 * 4 - 1)%nat /\
    Forall2 sweep_block_ok heading_pairs sweep.
Proof.
  exists (map (fun c => (c, verdict c)) generated), generated,
         (chunks 11 31 (skipn 44 generated)).
  split; [ | split; [ | split; [ | split; [ | split; [ | split ] ] ] ] ].
  - exact caller_runs.
  - rewrite map_map. cbn [fst]. apply map_id.
  - exact generated_length.
  - exact generated_arity.
  - vm_compute. reflexivity.
  - vm_compute. reflexivity.
  - vm_compute.
    repeat first [ apply Forall2_nil | apply Forall2_cons
                 | apply Forall_nil | apply Forall_cons
                 | apply conj | reflexivity ].
Qed.

(** ** The report loop *)

Section Report.

Context {Scenario : Type}.
Variables stopId startId : Z.

Implicit Types (items : list (Z * (Scenario * bool))) (l : list (Scenario * bool)).

Lemma enumerate_from_cons (k : nat) (a : Scenario * bool) l :
  enumerate_from k (a :: l) = (Z.of_nat k, a) :: enumerate_from (S k) l.
Proof. reflexivity. Qed.

Lemma enumerate_from_bound (k : nat) l (item : Z * (Scenario * bool)) :
  In item (enumerate_from k l) ->
  (Z.of_nat k <= fst item < Z.of_nat (k + length l))%Z.
Proof.
  revert k. induction l as [ | a l IH ]; intros k Hin.
  - destruct Hin.
  - rewrite enumerate_from_cons in Hin. destruct Hin as [E | Hin].
    + subst item. cbn [fst length]. lia.
    + apply IH in Hin. cbn [length]. lia.
Qed.

(** When no printed index equals [stopId], the loop runs to the end. *)
Lemma report_loop_no_break items :
  Forall (fun item => (fst item < startId)%Z \/ fst item <> stopId) items ->
  report_loop stopId startId items
  = map line (filter (fun item => (startId <=? fst item)%Z) items).
Proof.
  induction 1 as [ | item rest Hitem _ IH ]; [ reflexivity | ].
  cbn [report_loop filter].
  destruct (fst item <? startId)%Z eqn:Hlt.
  - apply Z.ltb_lt in Hlt.
    replace (startId <=? fst item)%Z with false by (symmetry; apply Z.leb_gt; lia).
    exact IH.
  - apply Z.ltb_ge in Hlt.
    replace (startId <=? fst item)%Z with true by (symmetry; apply Z.leb_le; lia).
    replace (fst item =? stopId)%Z with false
      by (symmetry; apply Z.eqb_neq; destruct Hitem; [ lia | assumption ]).
    cbn [map]. rewrite IH. reflexivity.
Qed.

Lemma window_empty_after (k : nat) l :
  (stopId < Z.of_nat k)%Z ->
  filter (fun item => ((startId <=? fst item) && (fst item <=? stopId))%Z)
         (enumerate_from k l) = [].
Proof.
  revert k. induction l as [ | a l IH ]; intros k Hk; [ reflexivity | ].
  rewrite enumerate_from_cons. cbn [filter fst].
  replace (Z.of_nat k <=? stopId)%Z with false by (symmetry; apply Z.leb_gt; lia).
  rewrite andb_false_r. apply IH. lia.
Qed.

(** While the stop index is still ahead, the loop prints the window. *)
Lemma report_loop_window (k : nat) l :
  (startId <= stopId)%Z -> (Z.of_nat k <= stopId)%Z ->
  report_loop stopId startId (enumerate_from k l)
  = map line
        (filter (fun item => ((startId <=? fst item) && (fst item <=? stopId))%Z)
                (enumerate_from k l)).
Proof.
  intros Hwin. revert k. induction l as [ | a l IH ]; intros k Hk;
    [ reflexivity | ].
  rewrite enumerate_from_cons. cbn [report_loop filter fst].
  destruct (Z.of_nat k <? startId)%Z eqn:Hlt.
  - apply Z.ltb_lt in Hlt.
    replace (startId <=? Z.of_nat k)%Z with false
      by (symmetry; apply Z.leb_gt; lia).
    cbn [andb]. apply IH. lia.
  - apply Z.ltb_ge in Hlt.
    replace (startId <=? Z.of_nat k)%Z with true
      by (symmetry; apply Z.leb_le; lia).
    replace (Z.of_nat k <=? stopId)%Z with true
      by (symmetry; apply Z.leb_le; lia).
    cbn [andb map]. f_equal.
    destruct (Z.of_nat k =? stopId)%Z eqn:Heq.
    + apply Z.eqb_eq in Heq. rewrite window_empty_after by lia. reflexivity.
    + apply Z.eqb_neq in Heq. apply IH. lia.
Qed.

Lemma window_lines_filter l :
  window_lines l stopId startId
  = map line
        (filter (fun item => ((startId <=? fst item) && (fst item <=? stopId))%Z)
                (enumerate l)).
Proof.
  unfold window_lines. f_equal. apply filter_ext_in. intros item Hin.
  apply (enumerate_from_bound 0 l) in Hin. f_equal.
  destruct (fst item <=? stopId)%Z eqn:Hle.
  - apply Z.leb_le in Hle. apply Z.leb_le. lia.
  - apply Z.leb_gt in Hle. apply Z.leb_gt. lia.
Qed.

End Report.

(** The verdicts of [sample_results] are those of [is_overlap]. *)
Lemma sample_results_classified :
  Forall (fun r => verdict (fst r) = snd r) sample_results.
Proof.
  unfold sample_results.
  forall_list ltac:(unfold verdict, is_overlap_star; cbn [fst snd]; run_unrotated).
Qed.

(** C9, the claim as stated, fails when the stop index lies before the
    start index: with three results, [startId = 2] and [stopId = 0], the
    index 0 is skipped by [continue] before the [break] test is reached,
    so the loop prints the line of index 2, while the window from 2 to
    [min(0, 2)] is empty. *)
Lemma report_past_early_stop :
  report sample_results 0 2 = [ "Test case 3: Overlap"%string ] /\
  window_lines sample_results 0 2 = [].
Proof.
  split; vm_compute; reflexivity.
Qed.

(** C9 (report window, amended).  When [startId <= stopId] and
    [0 <= stopId], the loop prints the line labelled [i+1] for exactly the
    indices [i] with [startId <= i <= min(stopId, length-1)], once each and
    in order.  When [stopId < startId] or [stopId < 0] the [break] is never
    reached and the line of every index from [startId] on is printed. *)
Theorem report_window {Scenario : Type} (results : list (Scenario * bool))
    (stopId startId : Z) :
  ((startId <= stopId)%Z -> (0 <= stopId)%Z ->
   report results stopId startId = window_lines results stopId startId)
  /\
  ((stopId < startId)%Z \/ (stopId < 0)%Z ->
   report results stopId startId = tail_lines results startId).
Proof.
  split.
  - intros Hwin Hpos. rewrite window_lines_filter. unfold report, enumerate.
    apply (report_loop_window stopId startId 0 results); assumption.
  - intros Hearly. unfold report, tail_lines.
    apply report_loop_no_break. apply Forall_forall. intros item Hin.
    apply (enumerate_from_bound 0 results) in Hin.
    destruct (Z_lt_le_dec (fst item) startId); [ left; assumption | right; lia ].
Qed.

Lemma report_window_witness :
  report sample_results 1 0 = window_lines sample_results 1 0.
Proof.
  apply (proj1 (report_window sample_results 1 0)); lia.
Defined.

(** A stop index at or past the length never stops the loop early. *)
Lemma report_exhausts {Scenario : Type} (results : list (Scenario * bool))
    (stopId : Z) :
  (Z.of_nat (length results) <= stopId)%Z ->
  report results stopId 0 = map line (enumerate results).
Proof.
  intros Hstop. unfold report.
  rewrite report_loop_no_break.
  - f_equal. apply forallb_filter_id. apply forallb_forall.
    intros item Hin. apply (enumerate_from_bound 0) in Hin.
    apply Z.leb_le. lia.
  - apply Forall_forall. intros item Hin. right.
    apply (enumerate_from_bound 0) in Hin. lia.
Qed.

Lemma length_enumerate {A : Type} (l : list A) :
  length (enumerate l) = length l.
Proof.
  unfold enumerate. rewrite length_combine, length_map, length_seq.
  apply Nat.min_id.
Qed.

(** The program as run: [stopId] is the number of test cases, one past the
    last index, so the loop ends by exhaustion; after the two lines of
    [caller], one line is printed for each of the 385 test cases. *)
Lemma main_prints_every_case :
  exists lines, main = Some lines /\ length lines = 387%nat.
Proof.
  exists (caller_prints
          ++ map line (enumerate (map (fun c => (c, verdict c)) generated))).
  split.
  - unfold main. rewrite caller_runs. cbn [bind]. apply f_equal.
    apply f_equal. apply report_exhausts. rewrite length_map, generated_length.
    apply Z.le_refl.
  - rewrite length_app, length_map, length_enumerate, length_map.
    rewrite generated_length. reflexivity.
Qed.

(** * Further properties *)

(** ** The heuristic against the polygons of [create_rectangle] *)


(** A convex combination lies on the same side of a line as the points
    it combines. *)
Lemma weighted_sum_side (a b lo : R) (ws : list R) (P : list point) :
  length ws = length P ->
  Forall (fun w => 0 <= w) ws ->
  Forall (fun p => lo <= a * fst p + b * snd p) P ->
  total ws * lo
  <= a * fst (weighted_sum ws P) + b * snd (weighted_sum ws P).
Proof.
  revert P. induction ws as [ | w ws IH ]; intros [ | p P ] Hlen Hw HP;
    try discriminate; cbn [weighted_sum total fold_right fst snd].
  - lra.
  - fold (total ws). inversion Hw as [ | ? ? Hw0 Hws ]; subst.
    inversion HP as [ | ? ? Hp0 HPs ]; subst.
    specialize (IH P). cbn in Hlen.
    assert (IH' := IH ltac:(congruence) Hws HPs). nra.
Qed.

(** ** The generated test cases *)



Section Invariant.

Variable P : list R -> Prop.


Hypothesis sweep_rows : forall rx fac ad o1 o2 i c,
    sweep_case rx fac ad o1 o2 i = Some c -> P c.



End Invariant.






(** ** Rendering and report *)

Lemma report_loop_rendered {Scenario : Type} (stopId startId : Z)
    (items : list (Z * (Scenario * bool))) :
  report_loop stopId startId items = map line (rendered stopId startId items).
Proof.
  induction items as [ | item rest IH ]; [ reflexivity | ].
  cbn [report_loop rendered].
  destruct (fst item <? startId)%Z; [ exact IH | ].
  cbn [map]. apply f_equal.
  destruct (fst item =? stopId)%Z; [ reflexivity | exact IH ].
Qed.

Lemma case_traces_unpacks (i : Z) (case : list R) :
  length case = 14%nat ->
  exists ts, case_traces i case = Some ts /\ map tr_name ts = trace_names i.
Proof.
  intros H.
  do 15 (destruct case as [ | ? case ]; try discriminate H).
  unfold case_traces, exterior_xy. eexists. split; reflexivity.
Qed.

Lemma case_traces_fails (i : Z) (case : list R) :
  length case <> 14%nat -> case_traces i case = None.
Proof.
  intros H.
  do 14 (destruct case as [ | ? case ]; [ reflexivity | ]).
  destruct case as [ | ? case ]; [ | reflexivity ].
  exfalso. apply H. reflexivity.
Qed.

Section Plot.

Variables stopId startId : Z.

Lemma plot_loop_rendered (items : list (Z * (list R * bool))) :
  Forall unpacks (rendered stopId startId items) ->
  forall added,
  exists ts,
    plot_loop stopId startId items added = Some (added ++ ts) /\
    map tr_name ts
    = flat_map (fun item => trace_names (fst item))
               (rendered stopId startId items).
Proof.
  induction items as [ | item rest IH ]; intros Hwf added;
    cbn [plot_loop rendered] in *.
  - exists []. rewrite app_nil_r. split; reflexivity.
  - destruct (fst item <? startId)%Z; [ exact (IH Hwf added) | ].
    inversion Hwf as [ | ? ? Hitem Hrest ]; subst.
    destruct (case_traces_unpacks (fst item) _ Hitem) as [ts [E Hn]].
    rewrite E. cbn [bind flat_map].
    destruct (fst item =? stopId)%Z.
    + exists ts. split; [ reflexivity | ].
      cbn [flat_map]. rewrite app_nil_r. exact Hn.
    + destruct (IH Hrest (added ++ ts)) as [ts' [E' Hn']].
      exists (ts ++ ts'). split.
      * rewrite E', app_assoc. reflexivity.
      * rewrite map_app, Hn, Hn'. reflexivity.
Qed.

Lemma plot_loop_fails (items : list (Z * (list R * bool))) :
  Exists (fun item => ~ unpacks item) (rendered stopId startId items) ->
  forall added, plot_loop stopId startId items added = None.
Proof.
  induction items as [ | item rest IH ]; intros Hbad added;
    cbn [plot_loop rendered] in *.
  - inversion Hbad.
  - destruct (fst item <? startId)%Z; [ exact (IH Hbad added) | ].
    destruct (Nat.eq_dec (length (fst (snd item))) 14) as [Hok | Hno].
    + destruct (case_traces_unpacks (fst item) _ Hok) as [ts [E _]].
      rewrite E. cbn [bind].
      destruct (fst item =? stopId)%Z.
      * inversion Hbad as [ ? ? H | ? ? H ]; subst;
          [ contradiction | inversion H ].
      * apply IH. inversion Hbad as [ ? ? H | ? ? H ]; subst;
          [ contradiction | exact H ].
    + rewrite (case_traces_fails _ _ Hno). reflexivity.
Qed.

End Plot.

(** X10 (plot and report).  [plot_all_rectangles] and the report loop
    process the same enumerated items in the same order: the printed lines
    are the lines of those items, and when each of them unpacks into
    fourteen numbers the figure holds, for each, the four traces named
    R1T, R2T, r1cT and r2cT followed by the 1-based label.  When one of
    them does not unpack, the plot fails; cases outside the processed range
    are never unpacked. *)
Theorem plot_matches_report (results : list (list R * bool))
    (filename : string) (stopId startId : Z) :
  let items := rendered stopId startId (enumerate results) in
  report results stopId startId = map line items /\
  (Forall unpacks items ->
   exists fig,
     plot_all_rectangles results filename stopId startId = Some fig /\
     map tr_name (fig_traces fig)
     = flat_map (fun item => trace_names (fst item)) items /\
     length (fig_traces fig)
     = (4 * length (report results stopId startId))%nat) /\
  (Exists (fun item => ~ unpacks item) items ->
   plot_all_rectangles results filename stopId startId = None).
Proof.
  cbv zeta. split; [ apply report_loop_rendered | ]. split.
  - intros Hwf. unfold plot_all_rectangles.
    destruct (plot_loop_rendered stopId startId _ Hwf []) as [ts [E Hn]].
    rewrite E. cbn [bind app]. eexists. split; [ reflexivity | ].
    cbn [fig_traces]. split; [ exact Hn | ].
    unfold report. rewrite report_loop_rendered, length_map.
    rewrite <- (length_map tr_name), Hn.
    generalize (rendered stopId startId (enumerate results)).
    intros l. induction l as [ | item l IH ]; [ reflexivity | ].
    cbn [flat_map length]. rewrite length_app, IH. cbn [trace_names length].
    lia.
  - intros Hbad. unfold plot_all_rectangles.
    rewrite (plot_loop_fails stopId startId _ Hbad). reflexivity.
Qed.

Lemma plot_matches_report_witness :
  exists fig,
    plot_all_rectangles sample_results "plot.html" 1 0 = Some fig /\
    map tr_name (fig_traces fig)
    = flat_map (fun item => trace_names (fst item))
               (rendered 1 0 (enumerate sample_results)) /\
    length (fig_traces fig) = (4 * length (report sample_results 1 0))%nat.
Proof.
  apply (proj1 (proj2 (plot_matches_report sample_results "plot.html" 1 0))).
  unfold sample_results. cbn [enumerate rendered].
  forall_list ltac:(reflexivity).
Defined.

Lemma rendered_all {Scenario : Type} (stopId startId : Z)
    (items : list (Z * (Scenario * bool))) :
  Forall (fun item => (startId <= fst item)%Z /\ fst item <> stopId) items ->
  rendered stopId startId items = items.
Proof.
  induction 1 as [ | item rest [Hs Hn] _ IH ]; [ reflexivity | ].
  cbn [rendered].
  replace (fst item <? startId)%Z with false
    by (symmetry; apply Z.ltb_ge; exact Hs).
  replace (fst item =? stopId)%Z with false
    by (symmetry; apply Z.eqb_neq; exact Hn).
  rewrite IH. reflexivity.
Qed.

Lemma enumerate_indices {A : Type} (l : list A) :
  map fst (enumerate l) = map Z.of_nat (seq 0 (length l)).
Proof.
  unfold enumerate. generalize 0%nat.
  induction l as [ | a l IH ]; intros k; [ reflexivity | ].
  cbn [length seq map combine fst]. rewrite IH. reflexivity.
Qed.

(** With [startId] at most 0 and [stopId] at or past the number of results,
    as [caller] returns them, both loops run over every result. *)
Lemma runs_to_the_end (results : list (list R * bool)) (filename : string)
    (stopId startId : Z) :
  (startId <= 0)%Z -> (Z.of_nat (length results) <= stopId)%Z ->
  Forall (fun r => length (fst r) = 14%nat) results ->
  exists fig,
    plot_all_rectangles results filename stopId startId = Some fig /\
    map tr_name (fig_traces fig)
    = flat_map trace_names (map Z.of_nat (seq 0 (length results))) /\
    report results stopId startId = map line (enumerate results).
Proof.
  intros Hstart Hstop Hwf.
  assert (Hall : rendered stopId startId (enumerate results)
                 = enumerate results).
  { apply rendered_all. apply Forall_forall. intros item Hin.
    apply (enumerate_from_bound 0) in Hin. lia. }
  assert (Hun : Forall unpacks (enumerate results)).
  { apply Forall_forall. intros [i r] Hin. unfold unpacks. cbn [snd].
    apply in_combine_r in Hin. rewrite Forall_forall in Hwf.
    exact (Hwf r Hin). }
  unfold plot_all_rectangles, report.
  rewrite report_loop_rendered, Hall.
  rewrite <- Hall in Hun.
  destruct (plot_loop_rendered stopId startId _ Hun []) as [ts [E Hn]].
  rewrite E. cbn [bind app]. eexists. split; [ reflexivity | ].
  cbn [fig_traces]. split; [ | reflexivity ].
  rewrite Hn, Hall, <- enumerate_indices.
  generalize (enumerate results). intros l.
  induction l as [ | item l IH ]; [ reflexivity | ].
  cbn [flat_map map]. rewrite IH. reflexivity.
Qed.

(** X11 (the program).  Run as a script, the program first prints the two
    heading lists of the sweep, then plots and prints every one of the 385
    generated cases: [stopId] is the number of cases, one past the last
    index, so neither loop stops early.  The figure holds the four traces
    of each case in generation order, 1540 in all; 387 lines are printed,
    the last 385 being the verdicts of the cases in order. *)
Theorem run_main_covers_every_case :
  exists fig results test_cases,
    caller = Some (results, 385%Z, 0%Z, test_cases) /\
    run_main = Some (fig, caller_prints ++ map line (enumerate results)) /\
    caller_prints = [ "[-180, -135, -90, -45, 0, 45, 90, 135]"%string;
                      "[0, 10, 20, 30]"%string ] /\
    length results = 385%nat /\
    length (caller_prints ++ map line (enumerate results)) = 387%nat /\
    map tr_name (fig_traces fig)
    = flat_map trace_names (map Z.of_nat (seq 0 385)) /\
    length (fig_traces fig) = 1540%nat.
Proof.
  pose (results := map (fun c => (c, verdict c)) generated).
  assert (Hlen : length results = 385%nat)
    by (unfold results; rewrite length_map; exact generated_length).
  assert (Hwf : Forall (fun r => length (fst r) = 14%nat) results).
  { unfold results. clear Hlen. generalize generated_arity.
    generalize generated. intros l Hl.
    induction Hl as [ | c l Hc _ IH ]; cbn [map]; constructor;
      [ exact Hc | exact IH ]. }
  assert (Hstop : (Z.of_nat (length results) <= 385)%Z)
    by (rewrite Hlen; apply Z.le_refl).
  destruct (runs_to_the_end results "all_rectangles_overlap.html" 385 0
              (Z.le_refl 0) Hstop Hwf) as [fig [Efig [Hn Hlines]]].
  exists fig, results, generated.
  split; [ exact caller_runs | ].
  split; [ | split; [ | split; [ | split; [ | split ] ] ] ].
  - unfold run_main. rewrite caller_runs. cbn [bind]. fold results.
    rewrite Efig. cbn [bind]. rewrite Hlines. reflexivity.
  - vm_compute. reflexivity.
  - exact Hlen.
  - rewrite length_app, length_map, length_enumerate, Hlen. reflexivity.
  - rewrite Hn, Hlen. reflexivity.
  - rewrite <- (length_map tr_name), Hn, Hlen. vm_compute. reflexivity.
Qed.

(** * Properties of the binary64 functions *)

(** ** The order of binary64 numbers *)

Lemma SFleb_refl (x : spec_float) : x <> S754_nan -> SFleb x x = true.
Proof.
  intros H. unfold SFleb. destruct x as [ s | s | | s m e ]; cbn.
  - reflexivity.
  - destruct s; reflexivity.
  - contradiction.
  - rewrite Z.compare_refl.
    change (Pos.compare_cont Eq m m) with (Pos.compare m m).
    rewrite Pos.compare_refl. destruct s; reflexivity.
Qed.

Lemma SFleb_not_nan (x y : spec_float) :
  SFleb x y = true -> x <> S754_nan /\ y <> S754_nan.
Proof.
  unfold SFleb. destruct x, y; cbn; intros H; split; intros E;
    discriminate E || discriminate H.
Qed.

(** Case analysis on every comparison of exponents and mantissas. *)
Ltac order_cases :=
  repeat match goal with
         | |- context [Z.compare ?a ?b] =>
             let H := fresh in destruct (Z.compare_spec a b) as [H | H | H]
         | H : context [Z.compare ?a ?b] |- _ =>
             let H' := fresh in destruct (Z.compare_spec a b) as [H' | H' | H']
         | |- context [Pos.compare_cont Eq ?a ?b] =>
             change (Pos.compare_cont Eq a b) with (Pos.compare a b)
         | H : context [Pos.compare_cont Eq ?a ?b] |- _ =>
             change (Pos.compare_cont Eq a b) with (Pos.compare a b) in H
         | |- context [Pos.compare ?a ?b] =>
             let H := fresh in destruct (Pos.compare_spec a b) as [H | H | H]
         | H : context [Pos.compare ?a ?b] |- _ =>
             let H' := fresh in destruct (Pos.compare_spec a b) as [H' | H' | H']
         end.

Lemma SFleb_trans (x y z : spec_float) :
  SFleb x y = true -> SFleb y z = true -> SFleb x z = true.
Proof.
  unfold SFleb.
  destruct x as [ [|] | [|] | | [|] m1 e1 ], y as [ [|] | [|] | | [|] m2 e2 ],
           z as [ [|] | [|] | | [|] m3 e3 ];
    cbn; intros H1 H2; try reflexivity; try discriminate H1; try discriminate H2;
    order_cases; cbn in *; try reflexivity; try discriminate; try lia.
Qed.

Section Order.

Local Open Scope float_scope.

Lemma leb_refl_l (x y : float) : (x <=? y) = true -> (x <=? x) = true.
Proof.
  rewrite !leb_spec. intros H. apply SFleb_refl.
  exact (proj1 (SFleb_not_nan _ _ H)).
Qed.

Lemma leb_refl_r (x y : float) : (x <=? y) = true -> (y <=? y) = true.
Proof.
  rewrite !leb_spec. intros H. apply SFleb_refl.
  exact (proj2 (SFleb_not_nan _ _ H)).
Qed.

Lemma leb_trans (x y z : float) :
  (x <=? y) = true -> (y <=? z) = true -> (x <=? z) = true.
Proof.
  rewrite !leb_spec. apply SFleb_trans.
Qed.

(** The opposite of a nonnegative number is at most zero. *)
Lemma opp_nonneg (x : float) : (0 <=? x) = true -> (- x <=? 0) = true.
Proof.
  rewrite !leb_spec, opp_spec.
  change (Prim2SF 0) with (S754_zero false).
  destruct (Prim2SF x) as [ [|] | [|] | | [|] m e ]; cbn; intros H;
    reflexivity || discriminate H.
Qed.

Lemma opp_nonneg_le (x y : float) :
  (0 <=? x) = true -> (0 <=? y) = true -> (- x <=? y) = true.
Proof.
  intros Hx Hy. exact (leb_trans _ _ _ (opp_nonneg x Hx) Hy).
Qed.

Lemma opp_refl (x : float) : (0 <=? x) = true -> (- x <=? - x) = true.
Proof.
  intros Hx. exact (leb_refl_l _ _ (opp_nonneg x Hx)).
Qed.

End Order.

(** ** The loop of [transform_and_check], in binary64 *)

Section Loop.

Variables cos sin : float -> float.

Lemma b64_corner_loop_four (check : float -> float -> bool)
    (a b c d a' b' c' d' : float) :
  B64.corner_loop check [a; b; c; d] [a'; b'; c'; d'] (seq 0 4)
  = check a a' || check b b' || check c c' || check d d'.
Proof.
  cbn. destruct (check a a'), (check b b'), (check c c'), (check d d');
    reflexivity.
Qed.

(** The loop finds a corner exactly when one passes the test. *)
Lemma corner_loop_spec
    (cx1 cy1 t1 lf1 wl1 lr1 wr1 cx2 cy2 t2 lf2 wl2 lr2 wr2 : float) :
  B64.corner_loop
    (B64.corner_check cx1 cy1 (cos t1) (sin t1) cx2 cy2 (cos t2) (sin t2)
                      (- lr2) lf2 (- wr2) wl2)
    (B64.corners_x lf1 lr1) (B64.corners_y wl1 wr1) (seq 0 4) = true
  <-> B64.corner_inside cos sin cx1 cy1 t1 lf1 wl1 lr1 wr1
                        cx2 cy2 t2 lf2 wl2 lr2 wr2.
Proof.
  unfold B64.corner_inside, B64.visited_corners.
  unfold B64.corners_x, B64.corners_y.
  rewrite b64_corner_loop_four.
  rewrite !orb_true_iff. unfold B64.corner_check. cbn [combine In].
  split.
  - intros [[[H | H] | H] | H]; eexists (_, _);
      (split; [ | cbn [fst snd]; exact H ]); auto.
  - intros [c [[E | [E | [E | [E | []]]]] H]]; subst c; auto.
Qed.

(** The calls of [math.cos] and [math.sin] succeed exactly when neither
    heading is infinite. *)
Lemma b64_tac_run
    (cx1 cy1 t1 lf1 wl1 lr1 wr1 cx2 cy2 t2 lf2 wl2 lr2 wr2 : float) :
  B64.transform_and_check cos sin cx1 cy1 t1 lf1 wl1 lr1 wr1
                          cx2 cy2 t2 lf2 wl2 lr2 wr2
  = if B64.headings_ok t1 t2
    then Some (B64.corner_loop
                 (B64.corner_check cx1 cy1 (cos t1) (sin t1)
                                   cx2 cy2 (cos t2) (sin t2)
                                   (- lr2) lf2 (- wr2) wl2)
                 (B64.corners_x lf1 lr1) (B64.corners_y wl1 wr1) (seq 0 4))
    else None.
Proof.
  unfold B64.transform_and_check, B64.headings_ok, B64.math_cos, B64.math_sin.
  cbv zeta. destruct (is_infinity t1), (is_infinity t2); reflexivity.
Qed.

Lemma b64_tac_spec
    (cx1 cy1 t1 lf1 wl1 lr1 wr1 cx2 cy2 t2 lf2 wl2 lr2 wr2 : float)
    (b : bool) :
  B64.transform_and_check cos sin cx1 cy1 t1 lf1 wl1 lr1 wr1
                          cx2 cy2 t2 lf2 wl2 lr2 wr2 = Some b
  <-> B64.headings_ok t1 t2 = true /\
      (b = true <-> B64.corner_inside cos sin cx1 cy1 t1 lf1 wl1 lr1 wr1
                                      cx2 cy2 t2 lf2 wl2 lr2 wr2).
Proof.
  rewrite b64_tac_run, <- corner_loop_spec.
  destruct (B64.headings_ok t1 t2).
  - split.
    + intros E. injection E as <-. split; [ reflexivity | tauto ].
    + intros [_ H]. apply f_equal.
      destruct b, (B64.corner_loop _ _ _ _); try reflexivity;
        [ pose proof (proj1 H eq_refl) as X
        | pose proof (proj2 H eq_refl) as X ]; discriminate X.
  - split; [ discriminate | intros [E _]; discriminate E ].
Qed.

Lemma headings_ok_sym (t1 t2 : float) :
  B64.headings_ok t2 t1 = B64.headings_ok t1 t2.
Proof. apply andb_comm. Qed.

Lemma b64_is_overlap_spec
    (cx1 cy1 t1 lf1 wl1 lr1 wr1 cx2 cy2 t2 lf2 wl2 lr2 wr2 : float)
    (b : bool) :
  B64.is_overlap cos sin cx1 cy1 t1 lf1 wl1 lr1 wr1
                 cx2 cy2 t2 lf2 wl2 lr2 wr2 = Some b
  <-> B64.headings_ok t1 t2 = true /\
      (b = true
       <-> B64.corner_inside cos sin cx1 cy1 t1 lf1 wl1 lr1 wr1
                             cx2 cy2 t2 lf2 wl2 lr2 wr2
           \/ B64.corner_inside cos sin cx2 cy2 t2 lf2 wl2 lr2 wr2
                                cx1 cy1 t1 lf1 wl1 lr1 wr1).
Proof.
  unfold B64.is_overlap.
  destruct (B64.transform_and_check cos sin cx1 cy1 t1 lf1 wl1 lr1 wr1
              cx2 cy2 t2 lf2 wl2 lr2 wr2) as [ [|] | ] eqn:E1; cbn [bind].
  - apply b64_tac_spec in E1. destruct E1 as [Hok H1].
    assert (Hin : B64.corner_inside cos sin cx1 cy1 t1 lf1 wl1 lr1 wr1
                                    cx2 cy2 t2 lf2 wl2 lr2 wr2)
      by (apply H1; reflexivity).
    split.
    + intros E. injection E as <-. split; [ exact Hok | ]. tauto.
    + intros [_ H]. apply f_equal. symmetry. apply H. left. exact Hin.
  - apply b64_tac_spec in E1. destruct E1 as [Hok H1].
    assert (Hno : ~ B64.corner_inside cos sin cx1 cy1 t1 lf1 wl1 lr1 wr1
                                      cx2 cy2 t2 lf2 wl2 lr2 wr2)
      by (intros H; apply H1 in H; discriminate H).
    rewrite b64_tac_spec, headings_ok_sym. tauto.
  - rewrite b64_tac_run in E1.
    destruct (B64.headings_ok t1 t2); [ discriminate E1 | ].
    split; [ discriminate | intros [E _]; discriminate E ].
Qed.

(** Every visited corner of a rectangle with nonnegative extents passes
    the test of its own box. *)
Lemma b64_corner_within (lf wl lr wr : float) (c : B64.point) :
  B64.valid lf wl lr wr = true ->
  In c (B64.visited_corners lf wl lr wr) ->
  B64.within (- lr) lf (- wr) wl c = true.
Proof.
  unfold B64.valid. rewrite !andb_true_iff.
  intros [[[Hlf Hwl] Hlr] Hwr] Hc.
  unfold B64.visited_corners, B64.corners_x, B64.corners_y in Hc.
  cbn [combine In] in Hc. unfold B64.within.
  destruct Hc as [E | [E | [E | [E | []]]]]; subst c; cbn [fst snd];
    rewrite ?opp_refl, ?opp_nonneg_le, ?(leb_refl_r _ _ Hlf),
            ?(leb_refl_r _ _ Hwl) by assumption; reflexivity.
Qed.

End Loop.

(** ** Exact values and the order of binary64 numbers *)

Lemma SF2raw_pos (x : spec_float) : (0 < snd (SF2raw x))%Z.
Proof.
  destruct x as [ s | s | | s m e ]; cbn; try lia.
  destruct (0 <=? e)%Z eqn:E; cbn [snd]; [ lia | ].
  apply Z.leb_gt in E. apply Z.pow_pos_nonneg; lia.
Qed.

Lemma reduced_fraction (n d : Z) :
  (0 < d)%Z ->
  IZR (n / Z.gcd n d) / IZR (d / Z.gcd n d) = IZR n / IZR d.
Proof.
  intros Hd. set (g := Z.gcd n d).
  assert (Hg : (0 < g)%Z).
  { pose proof (Z.gcd_nonneg n d) as H0.
    assert (g <> 0%Z) by (unfold g; intros E; apply Z.gcd_eq_0_r in E; lia).
    fold g in H0. lia. }
  destruct (Z.gcd_divide_l n d) as [n' En].
  destruct (Z.gcd_divide_r n d) as [d' Ed].
  fold g in En, Ed. clearbody g. subst n d.
  rewrite !Z.div_mul by lia. rewrite !mult_IZR.
  assert (0 < d')%Z by nia.
  field. split; apply not_0_IZR; lia.
Qed.

Lemma value_raw (x : float) :
  value x = IZR (fst (SF2raw (Prim2SF x))) / IZR (snd (SF2raw (Prim2SF x))).
Proof.
  unfold value, SF2fraction.
  pose proof (SF2raw_pos (Prim2SF x)) as Hpos.
  destruct (SF2raw (Prim2SF x)) as [n d]. cbn [fst snd] in *.
  apply reduced_fraction. exact Hpos.
Qed.

Lemma value_opp (x : float) : value (- x)%float = - value x.
Proof.
  rewrite !value_raw, opp_spec.
  destruct (Prim2SF x) as [ s | s | | s m e ]; cbn [SFopp SF2raw fst snd];
    try lra.
  destruct (0 <=? e)%Z; cbn [fst snd]; destruct s; cbn [negb cond_Zopp];
    rewrite ?Z.mul_opp_l, ?opp_IZR; try lra.
Qed.

Lemma digits2_pos_bounds (m : positive) :
  (2 ^ (Z.pos (digits2_pos m) - 1) <= Z.pos m < 2 ^ Z.pos (digits2_pos m))%Z.
Proof.
  induction m as [ m IH | m IH | ]; cbn [digits2_pos].
  - rewrite Pos2Z.inj_succ.
    replace (Z.succ (Z.pos (digits2_pos m)) - 1)%Z
      with (Z.succ (Z.pos (digits2_pos m) - 1))%Z by lia.
    rewrite !Z.pow_succ_r by lia. lia.
  - rewrite Pos2Z.inj_succ.
    replace (Z.succ (Z.pos (digits2_pos m)) - 1)%Z
      with (Z.succ (Z.pos (digits2_pos m) - 1))%Z by lia.
    rewrite !Z.pow_succ_r by lia. lia.
  - cbn. lia.
Qed.

Lemma bounded_shape (m : positive) (e : Z) :
  SpecFloat.bounded prec emax m e = true ->
  (- 1074 <= e)%Z /\
  (Z.pos m < 2 ^ 53)%Z /\
  ((- 1074 < e)%Z -> (2 ^ 52 <= Z.pos m)%Z).
Proof.
  unfold SpecFloat.bounded, canonical_mantissa, fexp, emin.
  rewrite andb_true_iff, Z.eqb_eq.
  change prec with 53%Z. change emax with 1024%Z.
  intros [Hc _]. pose proof (digits2_pos_bounds m) as [Hlo Hhi].
  set (d := Z.pos (digits2_pos m)) in *.
  assert (Hd : (d <= 53)%Z /\ (- 1074 <= e)%Z /\ ((- 1074 < e)%Z -> d = 53%Z))
    by lia.
  destruct Hd as [Hd [He Hn]]. split; [ exact He | ]. split.
  - apply Z.lt_le_trans with (2 ^ d)%Z; [ exact Hhi | ].
    apply Z.pow_le_mono_r; lia.
  - intros H. rewrite (Hn H) in Hlo. exact Hlo.
Qed.

(** Among valid numbers of the same sign, the larger exponent wins. *)
Lemma exponent_decides (m1 m2 : positive) (e1 e2 : Z) :
  SpecFloat.bounded prec emax m1 e1 = true -> SpecFloat.bounded prec emax m2 e2 = true ->
  (e1 < e2)%Z ->
  (Z.pos m1 * 2 ^ (e1 + 1074) < Z.pos m2 * 2 ^ (e2 + 1074))%Z.
Proof.
  intros H1 H2 He.
  destruct (bounded_shape _ _ H1) as [He1 [Hm1 _]].
  destruct (bounded_shape _ _ H2) as [He2 [_ Hm2]].
  specialize (Hm2 ltac:(lia)).
  assert (Hp1 : (0 < 2 ^ (e1 + 1074))%Z) by (apply Z.pow_pos_nonneg; lia).
  apply Z.lt_le_trans with (2 ^ 53 * 2 ^ (e1 + 1074))%Z.
  - apply Z.mul_lt_mono_pos_r; assumption.
  - apply Z.le_trans with (2 ^ 52 * 2 ^ (e2 + 1074))%Z.
    + rewrite <- !Z.pow_add_r by lia. apply Z.pow_le_mono_r; lia.
    + apply Z.mul_le_mono_nonneg_r; [ apply Z.pow_nonneg; lia | exact Hm2 ].
Qed.

Lemma scaled_order (x y : spec_float) :
  SpecFloat.valid_binary prec emax x = true -> SpecFloat.valid_binary prec emax y = true ->
  SFfinite x = true -> SFfinite y = true ->
  SFleb x y = true -> (scaled x <= scaled y)%Z.
Proof.
  unfold SFleb.
  destruct x as [ [|] | [|] | | [|] m1 e1 ], y as [ [|] | [|] | | [|] m2 e2 ];
    cbn [SpecFloat.valid_binary SFfinite SFcompare scaled cond_Zopp];
    intros Hx Hy Fx Fy H;
    try discriminate Fx; try discriminate Fy; try discriminate H;
    try apply Z.le_refl;
    try (destruct (bounded_shape _ _ Hx) as [Hex _]);
    try (destruct (bounded_shape _ _ Hy) as [Hey _]);
    try (assert (0 < Z.pos m1 * 2 ^ (e1 + 1074))%Z
          by (apply Z.mul_pos_pos; [ lia | apply Z.pow_pos_nonneg; lia ]));
    try (assert (0 < Z.pos m2 * 2 ^ (e2 + 1074))%Z
          by (apply Z.mul_pos_pos; [ lia | apply Z.pow_pos_nonneg; lia ]));
    try lia.
  - destruct (Z.compare_spec e1 e2) as [E | E | E].
    + subst e2.
      change (Pos.compare_cont Eq m1 m2) with (Pos.compare m1 m2) in H.
      destruct (Pos.compare_spec m1 m2) as [E' | E' | E'];
        try discriminate H.
      * subst m2. lia.
      * assert (Z.pos m2 * 2 ^ (e1 + 1074) <= Z.pos m1 * 2 ^ (e1 + 1074))%Z
          by (apply Z.mul_le_mono_nonneg_r;
              [ apply Z.pow_nonneg; lia | lia ]).
        lia.
    + discriminate H.
    + pose proof (exponent_decides _ _ _ _ Hy Hx E). lia.
  - destruct (Z.compare_spec e1 e2) as [E | E | E].
    + subst e2.
      change (Pos.compare_cont Eq m1 m2) with (Pos.compare m1 m2) in H.
      destruct (Pos.compare_spec m1 m2) as [E' | E' | E'];
        try discriminate H.
      * subst m2. lia.
      * apply Z.mul_le_mono_nonneg_r; [ apply Z.pow_nonneg; lia | lia ].
    + pose proof (exponent_decides _ _ _ _ Hx Hy E). lia.
    + discriminate H.
Qed.

Lemma raw_scaled (x : spec_float) :
  SpecFloat.valid_binary prec emax x = true ->
  IZR (fst (SF2raw x)) / IZR (snd (SF2raw x)) * IZR (2 ^ 1074) = IZR (scaled x).
Proof.
  destruct x as [ s | s | | s m e ]; cbn [SpecFloat.valid_binary SF2raw fst snd scaled];
    intros Hv; try (unfold Rdiv; rewrite Rmult_0_l, Rmult_0_l; reflexivity).
  destruct (bounded_shape _ _ Hv) as [He _].
  assert (Hz : forall k, cond_Zopp s (Z.pos m * k) = (cond_Zopp s (Z.pos m) * k)%Z).
  { intros k. destruct s; cbn [cond_Zopp]; lia. }
  rewrite Hz. destruct (0 <=? e)%Z eqn:E; cbn [fst snd].
  - apply Z.leb_le in E. rewrite Z.pow_add_r by lia.
    rewrite !mult_IZR. field.
  - apply Z.leb_gt in E.
    replace 1074%Z with ((e + 1074) + (- e))%Z at 1 by lia.
    rewrite Z.pow_add_r by lia. rewrite !mult_IZR. field.
    apply not_0_IZR. assert (0 < 2 ^ (- e))%Z by (apply Z.pow_pos_nonneg; lia).
    lia.
Qed.

Section Values.

Lemma value_scaled (x : float) :
  value x * IZR (2 ^ 1074) = IZR (scaled (Prim2SF x)).
Proof.
  rewrite value_raw. apply raw_scaled. apply Prim2SF_valid.
Qed.

(** The comparison of binary64 numbers is the order of their values. *)
Lemma leb_value (x y : float) :
  finite x = true -> finite y = true ->
  (x <=? y)%float = true -> value x <= value y.
Proof.
  intros Fx Fy H. rewrite leb_spec in H.
  pose proof (scaled_order _ _ (Prim2SF_valid x) (Prim2SF_valid y) Fx Fy H)
    as Hs.
  apply IZR_le in Hs. rewrite <- !value_scaled in Hs.
  assert (Hp : 0 < IZR (2 ^ 1074)).
  { apply IZR_lt. apply Z.pow_pos_nonneg; lia. }
  apply Rmult_le_reg_r with (IZR (2 ^ 1074)); assumption.
Qed.

(** A number between two finite numbers is finite. *)
Lemma between_finite (a x b : float) :
  finite a = true -> finite b = true ->
  (a <=? x)%float = true -> (x <=? b)%float = true -> finite x = true.
Proof.
  unfold finite. rewrite !leb_spec. unfold SFleb.
  destruct (Prim2SF a) as [ [|] | [|] | | [|] ? ? ],
           (Prim2SF x) as [ [|] | [|] | | [|] ? ? ],
           (Prim2SF b) as [ [|] | [|] | | [|] ? ? ];
    cbn; intros Fa Fb H1 H2; try reflexivity;
    try discriminate Fa; try discriminate Fb;
    try discriminate H1; try discriminate H2.
Qed.

Lemma finite_opp (x : float) : finite (- x)%float = finite x.
Proof.
  unfold finite. rewrite opp_spec. destruct (Prim2SF x); reflexivity.
Qed.

End Values.

(** Numerically equal numbers compare alike. *)
Lemma SFeqb_compare_l (x y z : spec_float) :
  SFeqb x y = true -> SFcompare x z = SFcompare y z.
Proof.
  unfold SFeqb.
  destruct x as [ [|] | [|] | | [|] m1 e1 ], y as [ [|] | [|] | | [|] m2 e2 ];
    cbn; intros H; try discriminate H; try reflexivity;
    order_cases; try discriminate H; subst; reflexivity.
Qed.

Lemma SFeqb_compare_r (x y z : spec_float) :
  SFeqb x y = true -> SFcompare z x = SFcompare z y.
Proof.
  unfold SFeqb.
  destruct x as [ [|] | [|] | | [|] m1 e1 ], y as [ [|] | [|] | | [|] m2 e2 ];
    cbn; intros H; try discriminate H; try reflexivity;
    order_cases; try discriminate H; subst;
    destruct z as [ [|] | [|] | | [|] m3 e3 ]; reflexivity.
Qed.

Section Equal.

Local Open Scope float_scope.

Lemma eqb_leb_l (x y z : float) :
  (x =? y) = true -> (x <=? z) = (y <=? z).
Proof.
  rewrite FloatAxioms.eqb_spec, !leb_spec. intros H. unfold SFleb.
  rewrite (SFeqb_compare_l _ _ _ H). reflexivity.
Qed.

Lemma eqb_leb_r (x y z : float) :
  (x =? y) = true -> (z <=? x) = (z <=? y).
Proof.
  rewrite FloatAxioms.eqb_spec, !leb_spec. intros H. unfold SFleb.
  rewrite (SFeqb_compare_r _ _ _ H). reflexivity.
Qed.

Lemma within_same (min_x max_x min_y max_y : float) (p q : B64.point) :
  B64.same p q = true ->
  B64.within min_x max_x min_y max_y p = B64.within min_x max_x min_y max_y q.
Proof.
  unfold B64.same, B64.within. rewrite andb_true_iff. intros [Hx Hy].
  rewrite (eqb_leb_r _ _ _ Hx), (eqb_leb_l _ _ _ Hx),
          (eqb_leb_r _ _ _ Hy), (eqb_leb_l _ _ _ Hy).
  reflexivity.
Qed.

End Equal.

(** ** Evaluation on numeric arguments *)

Lemma b64_create_rectangle_run (cos sin : float -> float)
    (cx cy angle lf wl lr wr : float) :
  is_infinity angle = false ->
  B64.create_rectangle cos sin cx cy angle lf wl lr wr
  = Some (map (fun '(x, y) =>
                 ((cx + cos angle * x - sin angle * y)%float,
                  (cy + sin angle * x + cos angle * y)%float))
              (B64.corners lf wl lr wr)).
Proof.
  intros H. unfold B64.create_rectangle, B64.math_cos, B64.math_sin.
  rewrite H. reflexivity.
Qed.

(** Evaluation of the binary64 functions on numeric arguments, once the
    values of [cos] and [sin] on the headings are known. *)
Ltac use_libm :=
  repeat match goal with
         | H : _ = _ :> float |- _ => rewrite H
         end.

Ltac run_b64 :=
  unfold B64.is_overlap, B64.transform_and_check, B64.math_cos, B64.math_sin;
  use_libm; vm_compute; reflexivity.

(** The exact values of numeric binary64 constants. *)
Ltac eval_values :=
  unfold value;
  repeat match goal with
         | |- context [SF2fraction ?x] =>
             let v := eval vm_compute in (SF2fraction x) in
             change (SF2fraction x) with v
         end;
  cbn [fst snd].

(** The rings of [create_rectangle] on numeric arguments, as lists of
    exact coordinates. *)
Ltac eval_rings :=
  use_libm;
  repeat match goal with
         | |- context [B64.reals ?r] =>
             let v := eval vm_compute in r in
             change (B64.reals r) with (B64.reals v);
             unfold B64.reals at 1; cbn [map fst snd]
         end;
  eval_values.

Ltac build_ring := apply b64_create_rectangle_run; reflexivity.

Ltac settle_convex :=
  unfold convex, turn; cbn [fst snd]; left; repeat split; lra.

(** ** Self-overlap *)

(** C4, the claim as stated, fails in binary64: the rectangle with centre
    (0, 0.9), heading 0 and extents 1, 0.2, 1, 0.2 is valid, yet the
    lateral coordinate of each of its corners comes back from the round
    trip through the global frame as 0.20000000000000007 or its opposite,
    outside the box [-0.2, 0.2], and [is_overlap] of the rectangle with
    itself returns false. *)
Lemma self_overlap_lost_to_rounding :
  B64.valid 1 0.2 1 0.2 = true /\
  B64.local_xy 0 0.9 1 0 0 0.9 1 0 (-1) 0.2
  = ((-1)%float, 0.20000000000000007%float) /\
  (0.20000000000000007 <=? 0.2)%float = false /\
  (forall cos sin : float -> float,
      cos 0%float = 1%float -> sin 0%float = 0%float ->
      B64.is_overlap cos sin 0 0.9 0 1 0.2 1 0.2 0 0.9 0 1 0.2 1 0.2
      = Some false).
Proof.
  split; [ vm_compute; reflexivity | ].
  split; [ vm_compute; reflexivity | ].
  split; [ vm_compute; reflexivity | ].
  intros cos sin Hc Hs. run_b64.
Qed.

(** C4 (self-overlap, amended).  A rectangle with nonnegative extents and
    a heading that is not infinite overlaps itself whenever the position of
    one of its corners in its own frame is computed without error, that is,
    comes back from the round trip through the global frame numerically
    equal to the corner. *)
Theorem self_overlap_exact_round_trip
    (cos sin : float -> float) (cx cy t lf wl lr wr : float)
    (c : B64.point) :
  B64.valid lf wl lr wr = true ->
  is_infinity t = false ->
  In c (B64.visited_corners lf wl lr wr) ->
  B64.same (B64.local_xy cx cy (cos t) (sin t) cx cy (cos t) (sin t)
                         (fst c) (snd c)) c = true ->
  B64.is_overlap cos sin cx cy t lf wl lr wr cx cy t lf wl lr wr = Some true.
Proof.
  intros Hv Ht Hc Hsame.
  apply b64_is_overlap_spec. split.
  - unfold B64.headings_ok. rewrite Ht. reflexivity.
  - split; [ intros _ | reflexivity ].
    left. exists c. split; [ exact Hc | ].
    rewrite (within_same _ _ _ _ _ _ Hsame).
    exact (b64_corner_within lf wl lr wr c Hv Hc).
Qed.

Lemma self_overlap_exact_round_trip_witness :
  B64.is_overlap B64.cos_sampled B64.sin_sampled
                 3 (-2) 0 1 0 2 0.5 3 (-2) 0 1 0 2 0.5 = Some true.
Proof.
  apply (self_overlap_exact_round_trip
           B64.cos_sampled B64.sin_sampled
           3%float (-2)%float 0%float 1%float 0%float 2%float 0.5%float
           ((-2)%float, 0%float)).
  - vm_compute. reflexivity.
  - vm_compute. reflexivity.
  - left. vm_compute. reflexivity.
  - vm_compute. reflexivity.
Defined.

(** ** Inclusive bounds *)

(** C5, the second half of the claim as stated, fails in binary64: two
    unrotated rectangles with extents 1, 0.2, 1, 0.2 and centres (0, 0.9)
    and (2, 0.9) are valid, the front edge of the first and the rear edge of
    the second are the same segment of the two rings, and [is_overlap]
    returns false: the lateral coordinate of each corner is computed as
    0.20000000000000007 or its opposite. *)
Lemma edge_touch_lost_to_rounding :
  B64.valid 1 0.2 1 0.2 = true /\
  value 2 - value 1 = value 0 + value 1 /\
  (forall cos sin : float -> float,
      cos 0%float = 1%float -> sin 0%float = 0%float ->
      exists A B,
        B64.create_rectangle cos sin 0 0.9 0 1 0.2 1 0.2 = Some A /\
        B64.create_rectangle cos sin 2 0.9 0 1 0.2 1 0.2 = Some B /\
        nth_error A 1 = nth_error B 0 /\ nth_error A 2 = nth_error B 3 /\
        nth_error A 1 <> nth_error A 2 /\
        B64.is_overlap cos sin 0 0.9 0 1 0.2 1 0.2 2 0.9 0 1 0.2 1 0.2
        = Some false).
Proof.
  split; [ vm_compute; reflexivity | ].
  split; [ eval_values; lra | ].
  intros cos sin Hc Hs.
  eexists. eexists.
  split; [ build_ring | ]. split; [ build_ring | ].
  use_libm.
  split; [ vm_compute; reflexivity | ].
  split; [ vm_compute; reflexivity | ].
  split; [ vm_compute; intros E; discriminate E | ].
  run_b64.
Qed.

(** C5 (inclusive bounds, amended).  The test of one corner succeeds
    exactly when the computed position satisfies the four non-strict
    comparisons, so a computed position on the boundary of a nonempty box
    passes; a corner of the first rectangle computed to lie on the rear
    edge of a second rectangle with nonnegative extents makes [is_overlap]
    return true, whatever the headings, as long as they are not infinite;
    and this is what happens for the unrotated rectangles
    (0, 0; 1, 1, 1, 1) and (2, 0; 1, 1, 1, 1), which share an edge. *)
Theorem inclusive_bounds_computed_touch :
  (forall cx1 cy1 ct1 st1 cx2 cy2 ct2 st2 min_x max_x min_y max_y x y : float,
      let p := B64.local_xy cx1 cy1 ct1 st1 cx2 cy2 ct2 st2 x y in
      B64.corner_check cx1 cy1 ct1 st1 cx2 cy2 ct2 st2
                       min_x max_x min_y max_y x y = true
      <-> ((min_x <=? fst p)%float = true /\ (fst p <=? max_x)%float = true) /\
          ((min_y <=? snd p)%float = true /\ (snd p <=? max_y)%float = true))
  /\
  (forall (min_x max_x min_y max_y : float) (p : B64.point),
      (min_x <=? max_x)%float = true -> (min_y <=? max_y)%float = true ->
      ((((fst p =? min_x)%float = true \/ (fst p =? max_x)%float = true) /\
        (min_y <=? snd p)%float = true /\ (snd p <=? max_y)%float = true) \/
       (((snd p =? min_y)%float = true \/ (snd p =? max_y)%float = true) /\
        (min_x <=? fst p)%float = true /\ (fst p <=? max_x)%float = true)) ->
      B64.within min_x max_x min_y max_y p = true)
  /\
  (forall (cos sin : float -> float)
          (cx1 cy1 t1 lf1 wl1 lr1 wr1 cx2 cy2 t2 lf2 wl2 lr2 wr2 : float)
          (c : B64.point),
      B64.valid lf2 wl2 lr2 wr2 = true ->
      B64.headings_ok t1 t2 = true ->
      In c (B64.visited_corners lf1 wl1 lr1 wr1) ->
      let p := B64.local_xy cx1 cy1 (cos t1) (sin t1) cx2 cy2 (cos t2) (sin t2)
                            (fst c) (snd c) in
      (fst p =? - lr2)%float = true ->
      (- wr2 <=? snd p)%float = true -> (snd p <=? wl2)%float = true ->
      B64.is_overlap cos sin cx1 cy1 t1 lf1 wl1 lr1 wr1
                     cx2 cy2 t2 lf2 wl2 lr2 wr2 = Some true)
  /\
  (forall cos sin : float -> float,
      cos 0%float = 1%float -> sin 0%float = 0%float ->
      B64.is_overlap cos sin 0 0 0 1 1 1 1 2 0 0 1 1 1 1 = Some true).
Proof.
  assert (Hedge : forall (min_x max_x min_y max_y : float) (p : B64.point),
             (min_x <=? max_x)%float = true -> (min_y <=? max_y)%float = true ->
             ((((fst p =? min_x)%float = true \/ (fst p =? max_x)%float = true) /\
               (min_y <=? snd p)%float = true /\ (snd p <=? max_y)%float = true) \/
              (((snd p =? min_y)%float = true \/ (snd p =? max_y)%float = true) /\
               (min_x <=? fst p)%float = true /\ (fst p <=? max_x)%float = true)) ->
             B64.within min_x max_x min_y max_y p = true).
  { intros min_x max_x min_y max_y p Hx Hy H. unfold B64.within.
    destruct H as [[[E | E] [H1 H2]] | [[E | E] [H1 H2]]];
      rewrite ?(eqb_leb_r _ _ _ E), ?(eqb_leb_l _ _ _ E), ?H1, ?H2, ?Hx, ?Hy,
              ?(leb_refl_l _ _ Hx), ?(leb_refl_r _ _ Hx),
              ?(leb_refl_l _ _ Hy), ?(leb_refl_r _ _ Hy);
      reflexivity. }
  split; [ | split; [ exact Hedge | split ] ].
  - intros. unfold B64.corner_check, B64.within. fold p.
    rewrite !andb_true_iff. tauto.
  - intros cos sin cx1 cy1 t1 lf1 wl1 lr1 wr1 cx2 cy2 t2 lf2 wl2 lr2 wr2 c
           Hv Hok Hc p Hx H1 H2.
    apply b64_is_overlap_spec. split; [ exact Hok | ].
    split; [ intros _ | reflexivity ].
    left. exists c. split; [ exact Hc | ].
    fold p. unfold B64.valid in Hv. rewrite !andb_true_iff in Hv.
    destruct Hv as [[[Hlf Hwl] Hlr] Hwr].
    apply Hedge.
    + exact (opp_nonneg_le _ _ Hlr Hlf).
    + exact (opp_nonneg_le _ _ Hwr Hwl).
    + left. split; [ left; exact Hx | split; assumption ].
  - intros cos sin Hc Hs. run_b64.
Qed.

Lemma inclusive_bounds_computed_touch_witness :
  B64.is_overlap B64.cos_sampled B64.sin_sampled
                 0 0 0 1 1 1 1 3 0.5 0 1 1 2 1 = Some true.
Proof.
  apply (proj1 (proj2 (proj2 inclusive_bounds_computed_touch))
           B64.cos_sampled B64.sin_sampled
           0%float 0%float 0%float 1%float 1%float 1%float 1%float
           3%float 0.5%float 0%float 1%float 1%float 2%float 1%float
           (1%float, 1%float)).
  - vm_compute. reflexivity.
  - vm_compute. reflexivity.
  - right. right. right. left. vm_compute. reflexivity.
  - vm_compute. reflexivity.
  - vm_compute. reflexivity.
  - vm_compute. reflexivity.
Defined.

(** ** The heuristic against the exact test *)

Lemma covers_side (a b lo : R) (P : list point) (g : point) :
  Forall (fun p => lo <= a * fst p + b * snd p) P ->
  covers P g -> lo <= a * fst g + b * snd g.
Proof.
  intros HP [ws [Hlen [Hw [Htot Hg]]]]. subst g.
  pose proof (weighted_sum_side a b lo ws P Hlen Hw HP) as H.
  rewrite Htot in H. lra.
Qed.

(** C6, the claim as stated, fails in binary64: the rectangles
    (2^-54, 0, 0; 1, 1, 0, 1) and (-1, 0, 0; 1, 1, 1, 1) are valid and
    their rings are convex and disjoint (the first lies in x >= 2^-54, the
    second in x <= 0), yet [is_overlap] returns true: the local x of the
    rear corners of the first, 1 + 2^-54, is rounded to 1. *)
Lemma false_positive_by_rounding :
  B64.valid 1 1 0 1 = true /\ B64.valid 1 1 1 1 = true /\
  (forall cos sin : float -> float,
      cos 0%float = 1%float -> sin 0%float = 0%float ->
      B64.is_overlap cos sin 0x1p-54 0 0 1 1 0 1 (-1) 0 0 1 1 1 1
      = Some true /\
      (exists A B,
          B64.create_rectangle cos sin 0x1p-54 0 0 1 1 0 1 = Some A /\
          B64.create_rectangle cos sin (-1) 0 0 1 1 1 1 = Some B /\
          B64.finite_ring A = true /\ B64.finite_ring B = true /\
          convex (B64.reals A) /\ convex (B64.reals B)) /\
      ~ B64.overlap cos sin 0x1p-54 0 0 1 1 0 1 (-1) 0 0 1 1 1 1).
Proof.
  split; [ vm_compute; reflexivity | ].
  split; [ vm_compute; reflexivity | ].
  intros cos sin Hc Hs.
  split; [ run_b64 | ]. split.
  - eexists. eexists.
    split; [ build_ring | ]. split; [ build_ring | ].
    use_libm.
    split; [ vm_compute; reflexivity | ]. split; [ vm_compute; reflexivity | ].
    eval_rings. split; settle_convex.
  - intros [A [B [EA [EB [g [HA HB]]]]]].
    rewrite b64_create_rectangle_run in EA, EB by reflexivity.
    injection EA as <-. injection EB as <-.
    revert HA HB. eval_rings. intros HA HB.
    apply (covers_side 1 0 (1 / 18014398509481984)) in HA;
      [ | forall_list ltac:(cbn [fst snd]; lra) ].
    apply (covers_side (-1) 0 0) in HB;
      [ | forall_list ltac:(cbn [fst snd]; lra) ].
    lra.
Qed.

Section Exactness.

Variables cos sin : float -> float.

(** The corners of the exact rectangle are the values of the binary64
    corners. *)
Lemma visited_corners_values (lf wl lr wr : float) (c : B64.point) :
  In c (B64.visited_corners lf wl lr wr) ->
  In (value (fst c), value (snd c))
     (visited_corners (value lf) (value wl) (value lr) (value wr)).
Proof.
  unfold B64.visited_corners, B64.corners_x, B64.corners_y.
  unfold visited_corners, corners_x, corners_y. cbn [combine In].
  intros [E | [E | [E | [E | []]]]]; subst c; cbn [fst snd];
    rewrite ?value_opp; auto.
Qed.

(** The box test on the computed position is the box test on its value. *)
Lemma within_in_box (lf wl lr wr : float) (p : B64.point) :
  B64.finite_box lf wl lr wr = true ->
  B64.within (- lr) lf (- wr) wl p = true ->
  in_box (value lf) (value wl) (value lr) (value wr)
         (value (fst p), value (snd p)).
Proof.
  unfold B64.finite_box, B64.within. rewrite !andb_true_iff.
  intros [[[Flf Fwl] Flr] Fwr] [[[H1 H2] H3] H4].
  assert (Flr' : finite (- lr)%float = true) by (rewrite finite_opp; exact Flr).
  assert (Fwr' : finite (- wr)%float = true) by (rewrite finite_opp; exact Fwr).
  pose proof (between_finite _ _ _ Flr' Flf H1 H2) as Fx.
  pose proof (between_finite _ _ _ Fwr' Fwl H3 H4) as Fy.
  apply leb_value in H1, H2, H3, H4; try assumption.
  rewrite value_opp in H1, H3.
  unfold in_box; cbn [fst snd]. lra.
Qed.

(** A corner that passes the test at an exactly computed position is a
    point of the closed regions of both exact rectangles. *)
Lemma exactly_inside_shared
    (cx1 cy1 t1 lf1 wl1 lr1 wr1 cx2 cy2 t2 lf2 wl2 lr2 wr2 : float) :
  B64.finite_box lf2 wl2 lr2 wr2 = true ->
  B64.exactly_inside cos sin cx1 cy1 t1 lf1 wl1 lr1 wr1
                     cx2 cy2 t2 lf2 wl2 lr2 wr2 ->
  exists g,
    covers (polygon (B64.real_rect cx1 cy1 t1 lf1 wl1 lr1 wr1)) g /\
    covers (polygon (B64.real_rect cx2 cy2 t2 lf2 wl2 lr2 wr2)) g.
Proof.
  intros F2 [c [Hc [Hin Hex]]].
  exists (to_global (value cx1) (value cy1) (value t1)
            (value (fst c), value (snd c))).
  split.
  - apply (corner_covers (B64.real_rect cx1 cy1 t1 lf1 wl1 lr1 wr1)).
    apply visited_corners_values. exact Hc.
  - apply (box_covers (B64.real_rect cx2 cy2 t2 lf2 wl2 lr2 wr2)).
    cbn [B64.real_rect r_cx r_cy r_t r_lf r_wl r_lr r_wr].
    unfold B64.exact_position in Hex. cbv zeta in Hex. rewrite <- Hex.
    apply within_in_box; assumption.
Qed.

End Exactness.

(** C6 (no false positive, amended).  A positive answer of [is_overlap]
    means that a corner of one rectangle, at its position in the frame of
    the other as computed in binary64, passes the inclusive test of the
    other's box.  When that position and the two rings are computed without
    rounding error, the rings are finite convex quadrilaterals with area
    and the extents are finite, the corner is a point of both closed
    regions and the exact test is positive as well. *)
Theorem positive_answer_is_a_computed_corner :
  (forall (cos sin : float -> float)
          (cx1 cy1 t1 lf1 wl1 lr1 wr1 cx2 cy2 t2 lf2 wl2 lr2 wr2 : float),
      B64.is_overlap cos sin cx1 cy1 t1 lf1 wl1 lr1 wr1
                     cx2 cy2 t2 lf2 wl2 lr2 wr2 = Some true
      <-> B64.headings_ok t1 t2 = true /\
          (B64.corner_inside cos sin cx1 cy1 t1 lf1 wl1 lr1 wr1
                             cx2 cy2 t2 lf2 wl2 lr2 wr2
           \/ B64.corner_inside cos sin cx2 cy2 t2 lf2 wl2 lr2 wr2
                                cx1 cy1 t1 lf1 wl1 lr1 wr1))
  /\
  (forall (cos sin : float -> float)
          (cx1 cy1 t1 lf1 wl1 lr1 wr1 cx2 cy2 t2 lf2 wl2 lr2 wr2 : float),
      B64.finite_box lf1 wl1 lr1 wr1 = true ->
      B64.finite_box lf2 wl2 lr2 wr2 = true ->
      B64.exact_ring cos sin cx1 cy1 t1 lf1 wl1 lr1 wr1 ->
      B64.exact_ring cos sin cx2 cy2 t2 lf2 wl2 lr2 wr2 ->
      B64.exactly_inside cos sin cx1 cy1 t1 lf1 wl1 lr1 wr1
                         cx2 cy2 t2 lf2 wl2 lr2 wr2
      \/ B64.exactly_inside cos sin cx2 cy2 t2 lf2 wl2 lr2 wr2
                            cx1 cy1 t1 lf1 wl1 lr1 wr1 ->
      B64.overlap cos sin cx1 cy1 t1 lf1 wl1 lr1 wr1
                  cx2 cy2 t2 lf2 wl2 lr2 wr2).
Proof.
  split.
  - intros. rewrite b64_is_overlap_spec.
    split; intros [Hok H]; (split; [ exact Hok | ]).
    + apply H. reflexivity.
    + split; [ intros _; exact H | reflexivity ].
  - intros cos sin cx1 cy1 t1 lf1 wl1 lr1 wr1 cx2 cy2 t2 lf2 wl2 lr2 wr2
           F1 F2 [A [EA [_ [RA _]]]] [B [EB [_ [RB _]]]] H.
    exists A, B. split; [ exact EA | ]. split; [ exact EB | ].
    rewrite RA, RB.
    destruct H as [H | H].
    + destruct (exactly_inside_shared cos sin _ _ _ _ _ _ _ _ _ _ _ _ _ _ F2 H)
        as [g [HA HB]].
      exists g. split; assumption.
    + destruct (exactly_inside_shared cos sin _ _ _ _ _ _ _ _ _ _ _ _ _ _ F1 H)
        as [g [HB HA]].
      exists g. split; assumption.
Qed.

(** An unrotated ring or position with numeric coordinates is computed
    without rounding error when both sides evaluate to the same numbers. *)
Ltac settle_exact :=
  eval_values; replace (0 / 1) with 0 by lra;
  rewrite ?cos_0, ?sin_0; cbn [map fst snd];
  repeat match goal with
         | |- _ :: _ = _ :: _ => apply f_equal2
         | |- (_, _) = (_, _) => apply f_equal2
         end; try reflexivity; lra.

Ltac settle_exact_ring :=
  eexists; split; [ build_ring | ];
  split; [ vm_compute; reflexivity | ];
  split;
  [ unfold polygon, B64.real_rect, create_rectangle, corners;
    cbn [r_cx r_cy r_t r_lf r_wl r_lr r_wr]; eval_rings; settle_exact
  | eval_rings; settle_convex ].

Lemma positive_answer_is_a_computed_corner_witness :
  B64.overlap B64.cos_sampled B64.sin_sampled
              0 0 0 2 1 2 1 3 1 0 2 1 2 1.
Proof.
  apply (proj2 positive_answer_is_a_computed_corner
           B64.cos_sampled B64.sin_sampled).
  - vm_compute. reflexivity.
  - vm_compute. reflexivity.
  - settle_exact_ring.
  - settle_exact_ring.
  - left. exists (2%float, 1%float).
    split; [ right; right; right; left; vm_compute; reflexivity | ].
    split; [ vm_compute; reflexivity | ].
    unfold B64.exact_position, to_local, to_global. cbn [fst snd].
    match goal with
    | |- context [B64.local_xy ?a ?b ?c ?d ?e ?f ?g ?h ?i ?j] =>
        let v := eval vm_compute in (B64.local_xy a b c d e f g h i j) in
        change (B64.local_xy a b c d e f g h i j) with v
    end.
    cbn [fst snd]. settle_exact.
Defined.

(** ** The blind spot of the heuristic, in binary64 *)

Section BlindSpot.

Variables cos sin : float -> float.

Lemma b64_blind_spot
    (cx1 cy1 t1 lf1 wl1 lr1 wr1 cx2 cy2 t2 lf2 wl2 lr2 wr2 : float) :
  B64.share_interior cos sin cx1 cy1 t1 lf1 wl1 lr1 wr1
                     cx2 cy2 t2 lf2 wl2 lr2 wr2 ->
  ~ B64.corner_inside cos sin cx1 cy1 t1 lf1 wl1 lr1 wr1
                      cx2 cy2 t2 lf2 wl2 lr2 wr2 ->
  ~ B64.corner_inside cos sin cx2 cy2 t2 lf2 wl2 lr2 wr2
                      cx1 cy1 t1 lf1 wl1 lr1 wr1 ->
  B64.is_overlap cos sin cx1 cy1 t1 lf1 wl1 lr1 wr1
                 cx2 cy2 t2 lf2 wl2 lr2 wr2 = Some false /\
  B64.overlap cos sin cx1 cy1 t1 lf1 wl1 lr1 wr1
              cx2 cy2 t2 lf2 wl2 lr2 wr2.
Proof.
  intros [A [B [EA [EB [_ [_ [_ [_ [g [HA HB]]]]]]]]]] HnA HnB. split.
  - apply b64_is_overlap_spec. split.
    + unfold B64.headings_ok.
      unfold B64.create_rectangle, B64.math_cos in EA, EB.
      destruct (is_infinity t1); [ discriminate EA | ].
      destruct (is_infinity t2); [ discriminate EB | ].
      reflexivity.
    + split; [ discriminate | tauto ].
  - exists A, B. split; [ exact EA | ]. split; [ exact EB | ].
    exists g. split; apply interior_covers; assumption.
Qed.

Lemma b64_no_corner
    (cx1 cy1 t1 lf1 wl1 lr1 wr1 cx2 cy2 t2 lf2 wl2 lr2 wr2 : float) :
  B64.is_overlap cos sin cx1 cy1 t1 lf1 wl1 lr1 wr1
                 cx2 cy2 t2 lf2 wl2 lr2 wr2 = Some false ->
  ~ B64.corner_inside cos sin cx1 cy1 t1 lf1 wl1 lr1 wr1
                      cx2 cy2 t2 lf2 wl2 lr2 wr2 /\
  ~ B64.corner_inside cos sin cx2 cy2 t2 lf2 wl2 lr2 wr2
                      cx1 cy1 t1 lf1 wl1 lr1 wr1.
Proof.
  intros H. apply b64_is_overlap_spec in H. destruct H as [_ H].
  split; intros Hin.
  - assert (E : false = true) by (apply H; left; exact Hin). discriminate E.
  - assert (E : false = true) by (apply H; right; exact Hin). discriminate E.
Qed.

Hypothesis cos_zero : cos 0%float = 1%float.
Hypothesis sin_zero : sin 0%float = 0%float.

(** A flat rectangle crossed by an upright one, both unrotated. *)
Lemma cross_instance :
  B64.share_interior cos sin 0 0 0 10 2 10 2 0 3 0 2 2 2 6 /\
  B64.is_overlap cos sin 0 0 0 10 2 10 2 0 3 0 2 2 2 6 = Some false.
Proof.
  split; [ | run_b64 ].
  eexists. eexists. split; [ build_ring | ]. split; [ build_ring | ].
  use_libm.
  split; [ vm_compute; reflexivity | ]. split; [ vm_compute; reflexivity | ].
  eval_rings.
  split; [ settle_convex | ]. split; [ settle_convex | ].
  exists (0, 0). split.
  - exists [ 1 / 4; 1 / 4; 1 / 4; 1 / 4 ].
    split; [ reflexivity | ]. split; [ forall_list lra | ].
    split; [ cbn; lra | ]. cbn. apply f_equal2; lra.
  - exists [ 5 / 16; 5 / 16; 3 / 16; 3 / 16 ].
    split; [ reflexivity | ]. split; [ forall_list lra | ].
    split; [ cbn; lra | ]. cbn. apply f_equal2; lra.
Qed.

Hypothesis cos_quarter :
  cos B64.quarter_pi = 0x1.6a09e667f3bcdp-1%float.
Hypothesis sin_quarter :
  sin B64.quarter_pi = 0x1.6a09e667f3bccp-1%float.

(** Two squares with all extents 1 on a common centre, headed at 0 and at
    45 degrees. *)
Lemma b64_star_instance :
  B64.share_interior cos sin 0 0 0 1 1 1 1 0 0 B64.quarter_pi 1 1 1 1 /\
  B64.is_overlap cos sin 0 0 0 1 1 1 1 0 0 B64.quarter_pi 1 1 1 1
  = Some false.
Proof.
  split; [ | run_b64 ].
  eexists. eexists. split; [ build_ring | ]. split; [ build_ring | ].
  use_libm.
  split; [ vm_compute; reflexivity | ]. split; [ vm_compute; reflexivity | ].
  eval_rings.
  split; [ settle_convex | ]. split; [ settle_convex | ].
  exists (0, 0). split.
  - exists [ 1 / 4; 1 / 4; 1 / 4; 1 / 4 ].
    split; [ reflexivity | ]. split; [ forall_list lra | ].
    split; [ cbn; lra | ]. cbn. apply f_equal2; lra.
  - exists [ 1 / 4; 1 / 4; 1 / 4; 1 / 4 ].
    split; [ reflexivity | ]. split; [ forall_list lra | ].
    split; [ cbn; lra | ]. cbn. apply f_equal2; lra.
Qed.

End BlindSpot.

(** C1, the second half of the claim as stated, fails in binary64.  The
    rectangles (0, 0, 0; 10, 2, 10, 2) and (0, 2, 0; 1, 2^-54, 1, 5) share
    interior points, and no corner of either lies in the box of the other:
    the left corners of the second are at y = 2 + 2^-54, above the first.
    Yet [is_overlap] returns true, because 2 + 2^-54 is rounded to 2. *)
Lemma near_miss_is_detected :
  let A := B64.real_rect 0 0 0 10 2 10 2 in
  let B := B64.real_rect 0 2 0 1 0x1p-54 1 5 in
  share_interior A B /\ ~ corner_inside A B /\ ~ corner_inside B A /\
  (forall cos sin : float -> float,
      cos 0%float = 1%float -> sin 0%float = 0%float ->
      B64.is_overlap cos sin 0 0 0 10 2 10 2 0 2 0 1 0x1p-54 1 5
      = Some true).
Proof.
  cbv zeta. unfold B64.real_rect. eval_values.
  replace (0 / 1) with 0 by lra.
  set (e := 1 / 18014398509481984).
  assert (He : 0 < e < 1) by (unfold e; lra).
  split; [ | split; [ | split ] ].
  - exists (0, (e - 1) / 2). split.
    + exists [ 5 / 16 - e / 16; 5 / 16 - e / 16;
               3 / 16 + e / 16; 3 / 16 + e / 16 ].
      split; [ reflexivity | ]. split; [ forall_list lra | ].
      split; [ cbn; lra | ].
      unfold polygon, create_rectangle, corners; cbn.
      rewrite cos_0, sin_0. apply f_equal2; lra.
    + exists [ 1 / 4; 1 / 4; 1 / 4; 1 / 4 ].
      split; [ reflexivity | ]. split; [ forall_list lra | ].
      split; [ cbn; lra | ].
      unfold polygon, create_rectangle, corners; cbn.
      rewrite cos_0, sin_0. apply f_equal2; lra.
  - intros [c [Hc [Hu Hv]]].
    unfold visited_corners, corners_x, corners_y in Hc; cbn [combine In] in Hc.
    unfold to_local, to_global in Hu, Hv;
      cbn [fst snd r_cx r_cy r_t r_lf r_wl r_lr r_wr] in Hu, Hv.
    rewrite cos_0, sin_0 in Hu, Hv.
    destruct Hc as [E | [E | [E | [E | []]]]]; subst c;
      cbn [fst snd r_lf r_wl r_lr r_wr] in Hu, Hv; lra.
  - intros [c [Hc [Hu Hv]]].
    unfold visited_corners, corners_x, corners_y in Hc; cbn [combine In] in Hc.
    unfold to_local, to_global in Hu, Hv;
      cbn [fst snd r_cx r_cy r_t r_lf r_wl r_lr r_wr] in Hu, Hv.
    rewrite cos_0, sin_0 in Hu, Hv.
    destruct Hc as [E | [E | [E | [E | []]]]]; subst c;
      cbn [fst snd r_lf r_wl r_lr r_wr] in Hu, Hv; lra.
  - intros cos sin Hc Hs. run_b64.
Qed.

(** C1 (known false negative, amended).  There are pairs of rectangles
    whose rings share interior points while no corner of either, at its
    computed position, passes the test of the other: a flat rectangle
    crossed by an upright one, both unrotated, and two squares with all
    extents 1 on a common centre headed at 0 and at 45 degrees.  For every
    pair of rectangles in that situation [is_overlap] returns false while
    [overlap] returns true. *)
Theorem blind_spot_as_computed :
  (forall cos sin : float -> float,
      cos 0%float = 1%float -> sin 0%float = 0%float ->
      B64.share_interior cos sin 0 0 0 10 2 10 2 0 3 0 2 2 2 6 /\
      ~ B64.corner_inside cos sin 0 0 0 10 2 10 2 0 3 0 2 2 2 6 /\
      ~ B64.corner_inside cos sin 0 3 0 2 2 2 6 0 0 0 10 2 10 2 /\
      B64.is_overlap cos sin 0 0 0 10 2 10 2 0 3 0 2 2 2 6 = Some false /\
      B64.overlap cos sin 0 0 0 10 2 10 2 0 3 0 2 2 2 6)
  /\
  (forall cos sin : float -> float,
      cos 0%float = 1%float -> sin 0%float = 0%float ->
      cos B64.quarter_pi = 0x1.6a09e667f3bcdp-1%float ->
      sin B64.quarter_pi = 0x1.6a09e667f3bccp-1%float ->
      B64.share_interior cos sin 0 0 0 1 1 1 1 0 0 B64.quarter_pi 1 1 1 1 /\
      ~ B64.corner_inside cos sin 0 0 0 1 1 1 1 0 0 B64.quarter_pi 1 1 1 1 /\
      ~ B64.corner_inside cos sin 0 0 B64.quarter_pi 1 1 1 1 0 0 0 1 1 1 1 /\
      B64.is_overlap cos sin 0 0 0 1 1 1 1 0 0 B64.quarter_pi 1 1 1 1
      = Some false /\
      B64.overlap cos sin 0 0 0 1 1 1 1 0 0 B64.quarter_pi 1 1 1 1)
  /\
  (forall (cos sin : float -> float)
          (cx1 cy1 t1 lf1 wl1 lr1 wr1 cx2 cy2 t2 lf2 wl2 lr2 wr2 : float),
      B64.share_interior cos sin cx1 cy1 t1 lf1 wl1 lr1 wr1
                         cx2 cy2 t2 lf2 wl2 lr2 wr2 ->
      ~ B64.corner_inside cos sin cx1 cy1 t1 lf1 wl1 lr1 wr1
                          cx2 cy2 t2 lf2 wl2 lr2 wr2 ->
      ~ B64.corner_inside cos sin cx2 cy2 t2 lf2 wl2 lr2 wr2
                          cx1 cy1 t1 lf1 wl1 lr1 wr1 ->
      B64.is_overlap cos sin cx1 cy1 t1 lf1 wl1 lr1 wr1
                     cx2 cy2 t2 lf2 wl2 lr2 wr2 = Some false /\
      B64.overlap cos sin cx1 cy1 t1 lf1 wl1 lr1 wr1
                  cx2 cy2 t2 lf2 wl2 lr2 wr2).
Proof.
  split; [ | split ].
  - intros cos sin Hc Hs.
    destruct (cross_instance cos sin Hc Hs) as [Hsh Hno].
    destruct (b64_no_corner cos sin _ _ _ _ _ _ _ _ _ _ _ _ _ _ Hno) as [H1 H2].
    destruct (b64_blind_spot cos sin _ _ _ _ _ _ _ _ _ _ _ _ _ _ Hsh H1 H2)
      as [_ Hex].
    split; [ exact Hsh | ]. split; [ exact H1 | ]. split; [ exact H2 | ].
    split; [ exact Hno | exact Hex ].
  - intros cos sin Hc Hs Hcq Hsq.
    destruct (b64_star_instance cos sin Hc Hs Hcq Hsq) as [Hsh Hno].
    destruct (b64_no_corner cos sin _ _ _ _ _ _ _ _ _ _ _ _ _ _ Hno) as [H1 H2].
    destruct (b64_blind_spot cos sin _ _ _ _ _ _ _ _ _ _ _ _ _ _ Hsh H1 H2)
      as [_ Hex].
    split; [ exact Hsh | ]. split; [ exact H1 | ]. split; [ exact H2 | ].
    split; [ exact Hno | exact Hex ].
  - exact b64_blind_spot.
Qed.

Lemma blind_spot_as_computed_witness :
  B64.is_overlap B64.cos_sampled B64.sin_sampled
                 0 0 0 1 1 1 1 0 0 B64.quarter_pi 1 1 1 1 = Some false /\
  B64.overlap B64.cos_sampled B64.sin_sampled
              0 0 0 1 1 1 1 0 0 B64.quarter_pi 1 1 1 1.
Proof.
  destruct (b64_star_instance B64.cos_sampled B64.sin_sampled
              eq_refl eq_refl eq_refl eq_refl) as [Hsh Hno].
  destruct (b64_no_corner B64.cos_sampled B64.sin_sampled
              _ _ _ _ _ _ _ _ _ _ _ _ _ _ Hno) as [H1 H2].
  exact (proj2 (proj2 blind_spot_as_computed)
           B64.cos_sampled B64.sin_sampled _ _ _ _ _ _ _ _ _ _ _ _ _ _
           Hsh H1 H2).
Defined.

(** The instance the specification names: two squares with all extents 1
    headed at 45 and at -45 degrees on a common centre.  Their sides are
    parallel and the two regions coincide up to rounding; whether a corner
    of one is computed inside the other depends on the centre: at the
    origin [is_overlap] returns true, at (10, 10) false. *)
Lemma squares_at_45_depend_on_rounding (cos sin : float -> float) :
  cos B64.quarter_pi = 0x1.6a09e667f3bcdp-1%float ->
  sin B64.quarter_pi = 0x1.6a09e667f3bccp-1%float ->
  cos (- B64.quarter_pi)%float = 0x1.6a09e667f3bcdp-1%float ->
  sin (- B64.quarter_pi)%float = (-0x1.6a09e667f3bccp-1)%float ->
  B64.is_overlap cos sin 0 0 B64.quarter_pi 1 1 1 1
                 0 0 (- B64.quarter_pi) 1 1 1 1 = Some true /\
  B64.is_overlap cos sin 10 10 B64.quarter_pi 1 1 1 1
                 10 10 (- B64.quarter_pi) 1 1 1 1 = Some false.
Proof.
  intros H1 H2 H3 H4. split; run_b64.
Qed.

(** ** Not-a-number coordinates *)

Section NaN.

Variables cos sin : float -> float.

Lemma is_nan_spec (x : float) : is_nan x = true -> Prim2SF x = S754_nan.
Proof.
  unfold is_nan. rewrite FloatAxioms.eqb_spec. unfold SFeqb.
  destruct (Prim2SF x) as [ s | [|] | | [|] m e ]; cbn; intros H;
    try reflexivity; try discriminate H.
  - rewrite Z.compare_refl in H.
    change (Pos.compare_cont Eq m m) with (Pos.compare m m) in H.
    rewrite Pos.compare_refl in H. discriminate H.
  - rewrite Z.compare_refl in H.
    change (Pos.compare_cont Eq m m) with (Pos.compare m m) in H.
    rewrite Pos.compare_refl in H. discriminate H.
Qed.

Lemma add_nan (x y : float) :
  Prim2SF x = S754_nan \/ Prim2SF y = S754_nan ->
  Prim2SF (x + y)%float = S754_nan.
Proof.
  rewrite add_spec. intros [H | H]; rewrite H; [ reflexivity | ].
  destruct (Prim2SF x); reflexivity.
Qed.

Lemma sub_nan (x y : float) :
  Prim2SF x = S754_nan \/ Prim2SF y = S754_nan ->
  Prim2SF (x - y)%float = S754_nan.
Proof.
  rewrite sub_spec. intros [H | H]; rewrite H; [ reflexivity | ].
  destruct (Prim2SF x); reflexivity.
Qed.

Lemma mul_nan (x y : float) :
  Prim2SF x = S754_nan \/ Prim2SF y = S754_nan ->
  Prim2SF (x * y)%float = S754_nan.
Proof.
  rewrite mul_spec. intros [H | H]; rewrite H; [ reflexivity | ].
  destruct (Prim2SF x); reflexivity.
Qed.

Lemma leb_nan_r (x y : float) :
  Prim2SF y = S754_nan -> (x <=? y)%float = false.
Proof.
  rewrite leb_spec. intros H. rewrite H. unfold SFleb.
  destruct (Prim2SF x); reflexivity.
Qed.

(** With a NaN among the four centre coordinates, the longitudinal
    coordinate of every corner is NaN. *)
Lemma local_x_nan (cx1 cy1 ct1 st1 cx2 cy2 ct2 st2 x y : float) :
  Prim2SF cx1 = S754_nan \/ Prim2SF cy1 = S754_nan \/
  Prim2SF cx2 = S754_nan \/ Prim2SF cy2 = S754_nan ->
  Prim2SF (fst (B64.local_xy cx1 cy1 ct1 st1 cx2 cy2 ct2 st2 x y))
  = S754_nan.
Proof.
  intros H. unfold B64.local_xy. cbv zeta. cbn [fst].
  apply add_nan.
  destruct H as [H | [H | [H | H]]].
  - left. apply mul_nan. left. apply sub_nan. left. apply add_nan. right.
    exact H.
  - right. apply mul_nan. left. apply sub_nan. left. apply add_nan. right.
    exact H.
  - left. apply mul_nan. left. apply sub_nan. right. exact H.
  - right. apply mul_nan. left. apply sub_nan. right. exact H.
Qed.

Lemma corner_inside_nan (cx1 cy1 t1 lf1 wl1 lr1 wr1 cx2 cy2 t2 lf2 wl2 lr2 wr2 : float) :
  Prim2SF cx1 = S754_nan \/ Prim2SF cy1 = S754_nan \/
  Prim2SF cx2 = S754_nan \/ Prim2SF cy2 = S754_nan ->
  ~ B64.corner_inside cos sin cx1 cy1 t1 lf1 wl1 lr1 wr1
                      cx2 cy2 t2 lf2 wl2 lr2 wr2.
Proof.
  intros H [c [_ Hin]]. unfold B64.within in Hin.
  rewrite (leb_nan_r _ _ (local_x_nan _ _ _ _ _ _ _ _ _ _ H)) in Hin.
  discriminate Hin.
Qed.

End NaN.

(** X14 (NaN).  When one of the four centre coordinates is NaN and
    neither heading is infinite, [is_overlap] raises no error and returns
    false, whatever the other arguments are: every comparison with the
    longitudinal coordinate of a corner fails.  With an infinite heading
    the call of [math.cos] fails, and so does [is_overlap]. *)
Theorem nan_centre_never_overlaps
    (cos sin : float -> float)
    (cx1 cy1 t1 lf1 wl1 lr1 wr1 cx2 cy2 t2 lf2 wl2 lr2 wr2 : float) :
  (is_nan cx1 = true \/ is_nan cy1 = true \/
   is_nan cx2 = true \/ is_nan cy2 = true ->
   B64.headings_ok t1 t2 = true ->
   B64.is_overlap cos sin cx1 cy1 t1 lf1 wl1 lr1 wr1
                  cx2 cy2 t2 lf2 wl2 lr2 wr2 = Some false)
  /\
  (B64.headings_ok t1 t2 = false ->
   B64.is_overlap cos sin cx1 cy1 t1 lf1 wl1 lr1 wr1
                  cx2 cy2 t2 lf2 wl2 lr2 wr2 = None).
Proof.
  split.
  - intros H Hok. apply b64_is_overlap_spec. split; [ exact Hok | ].
    split; [ discriminate | ].
    assert (N : Prim2SF cx1 = S754_nan \/ Prim2SF cy1 = S754_nan \/
                Prim2SF cx2 = S754_nan \/ Prim2SF cy2 = S754_nan)
      by (destruct H as [H | [H | [H | H]]]; apply is_nan_spec in H; tauto).
    intros [Hin | Hin]; exfalso.
    + exact (corner_inside_nan cos sin _ _ _ _ _ _ _ _ _ _ _ _ _ _ N Hin).
    + apply (corner_inside_nan cos sin cx2 cy2 t2 lf2 wl2 lr2 wr2
                     cx1 cy1 t1 lf1 wl1 lr1 wr1); [ tauto | exact Hin ].
  - intros Hok. unfold B64.is_overlap. rewrite b64_tac_run, Hok.
    reflexivity.
Qed.

Lemma nan_centre_never_overlaps_witness :
  B64.is_overlap B64.cos_sampled B64.sin_sampled
                 0 nan 0 1 1 1 1 0 0 0 1 1 1 1 = Some false /\
  B64.is_overlap B64.cos_sampled B64.sin_sampled
                 0 0 infinity 1 1 1 1 0 0 0 1 1 1 1 = None.
Proof.
  split.
  - apply (proj1 (nan_centre_never_overlaps
                    B64.cos_sampled B64.sin_sampled
                    0%float nan 0%float 1%float 1%float 1%float 1%float
                    0%float 0%float 0%float 1%float 1%float 1%float 1%float)).
    + right. left. reflexivity.
    + reflexivity.
  - apply (proj2 (nan_centre_never_overlaps
                    B64.cos_sampled B64.sin_sampled
                    0%float 0%float infinity 1%float 1%float 1%float 1%float
                    0%float 0%float 0%float 1%float 1%float 1%float 1%float)).
    reflexivity.
Defined.

(** ** Symmetry, growth and empty boxes, in binary64 *)

Lemma SFltb_leb (x y : spec_float) : SFltb x y = true -> SFleb x y = true.
Proof.
  unfold SFltb, SFleb. destruct (SFcompare x y) as [ [ | | ] | ];
    intros H; reflexivity || discriminate H.
Qed.

Lemma SFltb_not_leb (x y : spec_float) :
  SFltb x y = true -> SFleb y x = false.
Proof.
  unfold SFltb, SFleb.
  destruct x as [ [|] | [|] | | [|] m1 e1 ], y as [ [|] | [|] | | [|] m2 e2 ];
    cbn; intros H; try reflexivity; try discriminate H;
    order_cases; cbn in *; try reflexivity; try discriminate; try lia.
Qed.

Lemma SFleb_opp (x y : spec_float) :
  SFleb x y = true -> SFleb (SFopp y) (SFopp x) = true.
Proof.
  unfold SFleb.
  destruct x as [ [|] | [|] | | [|] m1 e1 ], y as [ [|] | [|] | | [|] m2 e2 ];
    cbn; intros H; try reflexivity; try discriminate H;
    order_cases; cbn in *; try reflexivity; try discriminate; try lia.
Qed.

Section Comparisons.

Variables cos sin : float -> float.

Lemma ltb_leb (x y : float) : (x <? y)%float = true -> (x <=? y)%float = true.
Proof. rewrite ltb_spec, leb_spec. apply SFltb_leb. Qed.

Lemma ltb_not_leb (x y : float) :
  (x <? y)%float = true -> (y <=? x)%float = false.
Proof. rewrite ltb_spec, leb_spec. apply SFltb_not_leb. Qed.

Lemma leb_opp (x y : float) :
  (x <=? y)%float = true -> (- y <=? - x)%float = true.
Proof. rewrite !leb_spec, !opp_spec. apply SFleb_opp. Qed.

(** A point that passes the test of a box passes the test of any larger
    box. *)
Lemma within_grows (lf wl lr wr lf' wl' lr' wr' : float) (p : B64.point) :
  (lf <=? lf')%float = true -> (wl <=? wl')%float = true ->
  (lr <=? lr')%float = true -> (wr <=? wr')%float = true ->
  B64.within (- lr) lf (- wr) wl p = true ->
  B64.within (- lr') lf' (- wr') wl' p = true.
Proof.
  intros Hlf Hwl Hlr Hwr. unfold B64.within. rewrite !andb_true_iff.
  intros [[[H1 H2] H3] H4].
  repeat split.
  - exact (leb_trans _ _ _ (leb_opp _ _ Hlr) H1).
  - exact (leb_trans _ _ _ H2 Hlf).
  - exact (leb_trans _ _ _ (leb_opp _ _ Hwr) H3).
  - exact (leb_trans _ _ _ H4 Hwl).
Qed.

(** No point passes the test of a box whose front lies behind its rear, or
    whose left side lies to the right of its right side. *)
Lemma within_empty (lf wl lr wr : float) (p : B64.point) :
  (lf <? - lr)%float = true \/ (wl <? - wr)%float = true ->
  B64.within (- lr) lf (- wr) wl p = false.
Proof.
  intros H. apply not_true_iff_false. unfold B64.within.
  rewrite !andb_true_iff. intros [[[H1 H2] H3] H4].
  destruct H as [H | H]; apply ltb_not_leb in H.
  - rewrite (leb_trans _ _ _ H1 H2) in H. discriminate H.
  - rewrite (leb_trans _ _ _ H3 H4) in H. discriminate H.
Qed.

Lemma b64_is_overlap_run
    (cx1 cy1 t1 lf1 wl1 lr1 wr1 cx2 cy2 t2 lf2 wl2 lr2 wr2 : float) :
  B64.is_overlap cos sin cx1 cy1 t1 lf1 wl1 lr1 wr1
                 cx2 cy2 t2 lf2 wl2 lr2 wr2
  = if B64.headings_ok t1 t2
    then Some
           (B64.corner_loop
              (B64.corner_check cx1 cy1 (cos t1) (sin t1)
                                cx2 cy2 (cos t2) (sin t2)
                                (- lr2) lf2 (- wr2) wl2)
              (B64.corners_x lf1 lr1) (B64.corners_y wl1 wr1) (seq 0 4)
            || B64.corner_loop
                 (B64.corner_check cx2 cy2 (cos t2) (sin t2)
                                   cx1 cy1 (cos t1) (sin t1)
                                   (- lr1) lf1 (- wr1) wl1)
                 (B64.corners_x lf2 lr2) (B64.corners_y wl2 wr2) (seq 0 4))
    else None.
Proof.
  unfold B64.is_overlap. rewrite !b64_tac_run, (headings_ok_sym t1 t2).
  destruct (B64.headings_ok t1 t2); [ | reflexivity ].
  cbn [bind]. destruct (B64.corner_loop _ _ _ _); reflexivity.
Qed.

End Comparisons.

(** X15 (symmetry in binary64).  [is_overlap] on (A, B) and on (B, A)
    behave alike: both fail when a heading is infinite, and otherwise both
    return the same boolean. *)
Theorem b64_is_overlap_symmetric
    (cos sin : float -> float)
    (cx1 cy1 t1 lf1 wl1 lr1 wr1 cx2 cy2 t2 lf2 wl2 lr2 wr2 : float) :
  B64.is_overlap cos sin cx1 cy1 t1 lf1 wl1 lr1 wr1
                 cx2 cy2 t2 lf2 wl2 lr2 wr2
  = B64.is_overlap cos sin cx2 cy2 t2 lf2 wl2 lr2 wr2
                   cx1 cy1 t1 lf1 wl1 lr1 wr1.
Proof.
  rewrite !b64_is_overlap_run, (headings_ok_sym t1 t2).
  destruct (B64.headings_ok t1 t2); [ | reflexivity ].
  apply f_equal. apply orb_comm.
Qed.

(** X16 (growth in binary64).  When a corner of [A] passes the test of
    [B], that is when [transform_and_check] on (A, B) returns true, then
    [is_overlap] on (A, B') returns true for every [B'] with the centre and
    the heading of [B] and four extents that are strictly larger: the
    computed position of the corner does not depend on the extents of the
    second rectangle. *)
Theorem b64_growth_keeps_contained_corner
    (cos sin : float -> float)
    (cx1 cy1 t1 lf1 wl1 lr1 wr1 cx2 cy2 t2 lf2 wl2 lr2 wr2 : float)
    (lf2' wl2' lr2' wr2' : float) :
  B64.transform_and_check cos sin cx1 cy1 t1 lf1 wl1 lr1 wr1
                          cx2 cy2 t2 lf2 wl2 lr2 wr2 = Some true ->
  (lf2 <? lf2')%float = true -> (wl2 <? wl2')%float = true ->
  (lr2 <? lr2')%float = true -> (wr2 <? wr2')%float = true ->
  B64.is_overlap cos sin cx1 cy1 t1 lf1 wl1 lr1 wr1
                 cx2 cy2 t2 lf2' wl2' lr2' wr2' = Some true.
Proof.
  intros H Hlf Hwl Hlr Hwr.
  apply b64_tac_spec in H. destruct H as [Hok H].
  destruct (proj1 H eq_refl) as [c [Hc Hin]].
  apply b64_is_overlap_spec. split; [ exact Hok | ].
  split; [ intros _ | reflexivity ].
  left. exists c. split; [ exact Hc | ].
  apply (within_grows lf2 wl2 lr2 wr2); try exact Hin; apply ltb_leb;
    assumption.
Qed.

Lemma b64_growth_keeps_contained_corner_witness :
  B64.is_overlap B64.cos_sampled B64.sin_sampled
                 0 0 0 1 1 1 1 2 0 0 2 2 2 2 = Some true.
Proof.
  apply (b64_growth_keeps_contained_corner
           B64.cos_sampled B64.sin_sampled
           0%float 0%float 0%float 1%float 1%float 1%float 1%float
           2%float 0%float 0%float 1%float 1%float 1%float 1%float);
    vm_compute; reflexivity.
Defined.

(** X17 (empty box in binary64).  When the front extent of a rectangle is
    smaller than the opposite of its rear extent, or its left extent
    smaller than the opposite of its right extent, no corner passes its
    test: [transform_and_check] with that rectangle as the second one
    returns false whatever the first rectangle is, and the rectangle does
    not overlap itself, as long as the headings are not infinite. *)
Theorem b64_empty_box_never_contains
    (cos sin : float -> float) (cx cy t lf wl lr wr : float) :
  (lf <? - lr)%float = true \/ (wl <? - wr)%float = true ->
  (forall cx1 cy1 t1 lf1 wl1 lr1 wr1 : float,
      B64.headings_ok t1 t = true ->
      B64.transform_and_check cos sin cx1 cy1 t1 lf1 wl1 lr1 wr1
                              cx cy t lf wl lr wr = Some false)
  /\
  (is_infinity t = false ->
   B64.is_overlap cos sin cx cy t lf wl lr wr cx cy t lf wl lr wr
   = Some false).
Proof.
  intros Hneg.
  assert (Hno : forall cx1 cy1 t1 lf1 wl1 lr1 wr1,
             ~ B64.corner_inside cos sin cx1 cy1 t1 lf1 wl1 lr1 wr1
                                 cx cy t lf wl lr wr).
  { intros cx1 cy1 t1 lf1 wl1 lr1 wr1 [c [_ Hin]].
    rewrite (within_empty _ _ _ _ _ Hneg) in Hin. discriminate Hin. }
  split.
  - intros cx1 cy1 t1 lf1 wl1 lr1 wr1 Hok.
    apply b64_tac_spec. split; [ exact Hok | ].
    split; [ discriminate | ]. intros H. exfalso. exact (Hno _ _ _ _ _ _ _ H).
  - intros Ht. apply b64_is_overlap_spec. split.
    + unfold B64.headings_ok. rewrite Ht. reflexivity.
    + split; [ discriminate | ].
      intros [H | H]; exfalso; exact (Hno _ _ _ _ _ _ _ H).
Qed.

Lemma b64_empty_box_never_contains_witness :
  (forall cx1 cy1 t1 lf1 wl1 lr1 wr1 : float,
      B64.headings_ok t1 0 = true ->
      B64.transform_and_check B64.cos_sampled B64.sin_sampled
                              cx1 cy1 t1 lf1 wl1 lr1 wr1
                              0 0 0 1 1 (-2) 1 = Some false)
  /\
  (is_infinity 0 = false ->
   B64.is_overlap B64.cos_sampled B64.sin_sampled
                  0 0 0 1 1 (-2) 1 0 0 0 1 1 (-2) 1 = Some false).
Proof.
  apply (b64_empty_box_never_contains B64.cos_sampled B64.sin_sampled
           0%float 0%float 0%float 1%float 1%float (-2)%float 1%float).
  left. vm_compute. reflexivity.
Defined.
